(** * table-demo: the sortable, paginated table widget of [src/Table.tsx]

    A shallow embedding of the [Table] component and of the host operations
    it calls, followed by the properties of its derived values
    ([totalPages], [sortedData], [visibleData], the three column groups) and
    of its two event handlers.

    Conventions of the embedding.
    - JavaScript numbers that the widget computes with (array lengths, page
      numbers, the page size) are integers, modelled by [Z].  Fractional,
      infinite and NaN page sizes are outside the model.
    - A row is a value of an arbitrary type [T]; the only thing the widget
      does with a row is to read a field by its key ([a[columnKey]]).  Field
      values are compared with the host operators [===] and [<]; the three
      operations form the interface [RowType].
    - Row arrays are mutable host objects.  They live in a store, a finite
      map from references to contents, and [Array.prototype.sort] updates
      its receiver in place.
    - Column descriptors are host objects with an identity:
      [Array.prototype.includes] compares them by reference.  The [columns]
      array is a list of references into an object store. *)

From stdpp Require Import base numbers list strings gmap sorting.

Local Open Scope Z_scope.

(** ** Host operations *)

Module Js.

(** [Math.ceil(n / d)] for integers [n] and [d ≠ 0]: the quotient is exact
    in the rationals and is rounded towards plus infinity. *)
Definition Math_ceil_div (n d : Z) : Z := - ((- n) `div` d).

(** The clamping of a relative index that [Array.prototype.slice] applies
    to both of its arguments: a negative index counts from the end. *)
Definition relative_index (len i : Z) : Z :=
  if decide (i < 0) then Z.max (len + i) 0 else Z.min i len.

(** [l.slice(start, end)] on the contents of an array. *)
Definition slice {A} (l : list A) (start end_ : Z) : list A :=
  let len := Z.of_nat (length l) in
  let k := relative_index len start in
  let final := relative_index len end_ in
  take (Z.to_nat (final - k)) (drop (Z.to_nat k) l).

(** [Array.prototype.sort(comparefn)] on the contents of an array.  The
    host sort is stable and is driven by the sign of [comparefn a b]: a
    positive result asks for [b] before [a]; a negative result or zero
    keeps [a] before [b].  It is modelled by a stable insertion sort; for a
    comparator that is consistent on the rows, every conforming host sort
    produces this same list.  For a comparator that is not consistent (its
    answers for [a, b] and for [b, a] do not mirror each other, as when a
    row lacks the sort field) the order is left to the host, and an engine
    may return another list than this model. *)
Section sort.
Context {A : Type} (comparefn : A → A → Z).

Fixpoint insert (a : A) (l : list A) : list A :=
  match l with
  | [] => [a]
  | b :: l' => if decide (0 < comparefn a b) then b :: insert a l'
               else a :: b :: l'
  end.

Fixpoint sort (l : list A) : list A :=
  match l with
  | [] => []
  | a :: l' => insert a (sort l')
  end.
End sort.

(** [Array.from(Array(n).keys())]: the constructor [Array(n)] throws a
    RangeError unless [n] is an integer in [0, 2^32); otherwise the result
    is [0, 1, ..., n-1]. *)
Definition Array_keys (n : Z) : option (list Z) :=
  if decide (0 ≤ n < 2 ^ 32) then Some (seqZ 0 n) else None.

(** Truthiness of a number and of a string. *)
Definition truthy (n : Z) : bool := bool_decide (n ≠ 0).
Definition truthy_string (s : string) : bool := bool_decide (s ≠ "").

End Js.

(** ** Data model *)

(** What the widget needs from the row type [T]: reading a field by key, and
    the host comparisons [===] and [<] on field values. *)
Class RowType (T value : Type) := {
  get : T → string → value;
  strict_eq : value → value → bool;
  less_than : value → value → bool;
}.

Inductive Direction := asc | desc.
Inductive Fixed := FixedLeft | FixedRight.

Global Instance Direction_eq_dec : EqDecision Direction.
Proof. solve_decision. Defined.
Global Instance Fixed_eq_dec : EqDecision Fixed.
Proof. solve_decision. Defined.

Record SortState := { columnKey : string; direction : Direction }.

Global Instance SortState_eq_dec : EqDecision SortState.
Proof. solve_decision. Defined.

(** The two pieces of state that the component keeps with [useState]. *)
Record WidgetState := { currentPage : Z; sortState : SortState }.

Global Instance WidgetState_eq_dec : EqDecision WidgetState.
Proof. solve_decision. Defined.

(** [interface TableColumn<T>]; an optional property is an [option]. *)
Record TableColumn (T value node : Type) := {
  key : string;
  title : string;
  sortable : option bool;
  fixed : option Fixed;
  width : option Z;
  render : option (value → T → node);
}.
Arguments key {T value node} _.
Arguments title {T value node} _.
Arguments sortable {T value node} _.
Arguments fixed {T value node} _.
Arguments width {T value node} _.
Arguments render {T value node} _.

(** References to host objects. *)
Abbreviation loc := positive.

(** ** Derived values of one render *)

(** [const totalPages = pageSize ? Math.ceil(data.length / pageSize) : 1] *)
Definition totalPages (rowCount pageSize : Z) : Z :=
  if Js.truthy pageSize then Js.Math_ceil_div rowCount pageSize else 1.

(** [const startRowIndex = pageSize ? (currentPage - 1) * pageSize : 0] *)
Definition startRowIndex (pageSize currentPage : Z) : Z :=
  if Js.truthy pageSize then (currentPage - 1) * pageSize else 0.

(** [const endRowIndex = pageSize ? startRowIndex + pageSize : data.length] *)
Definition endRowIndex (rowCount pageSize currentPage : Z) : Z :=
  if Js.truthy pageSize then startRowIndex pageSize currentPage + pageSize
  else rowCount.

Section rows.
Context {T value : Type} `{!RowType T value}.

(** The comparator handed to [sort]. *)
Definition compareRows (s : SortState) (a b : T) : Z :=
  if negb (Js.truthy_string (columnKey s)) then 0
  else
    let aValue := get a (columnKey s) in
    let bValue := get b (columnKey s) in
    if strict_eq aValue bValue then 0
    else
      let sortOrder := if decide (direction s = asc) then 1 else -1 in
      sortOrder * (if less_than aValue bValue then -1 else 1).

(** [const sortedData = [...data].sort(...)], as a list of rows. *)
Definition sortedData (data : list T) (s : SortState) : list T :=
  Js.sort (compareRows s) data.

(** [const visibleData = sortedData.slice(startRowIndex, endRowIndex)] *)
Definition visibleData (data : list T) (pageSize : Z) (st : WidgetState)
  : list T :=
  Js.slice (sortedData data (sortState st))
    (startRowIndex pageSize (currentPage st))
    (endRowIndex (Z.of_nat (length data)) pageSize (currentPage st)).
End rows.

(** ** Event handlers *)

(** The [onClick] of a sortable header's button:
    [setSortState({columnKey: column.key, direction: ...}); setCurrentPage(1)] *)
Definition HeaderColumns_onClick (column_key : string) (st : WidgetState)
  : WidgetState :=
  {| sortState :=
       {| columnKey := column_key;
          direction := if decide (direction (sortState st) = asc)
                       then desc else asc |};
     currentPage := 1 |}.

(** The [onClick] of a page button: [setCurrentPage(pageNumber + 1)] *)
Definition pagination_onClick (pageNumber : Z) (st : WidgetState)
  : WidgetState :=
  {| sortState := sortState st; currentPage := pageNumber + 1 |}.

(** ** Column groups *)

Section columns.
Context {T value node : Type}.
(** The store of column descriptor objects. *)
Context (obj : loc → TableColumn T value node).

(** [columns.filter((column) => column.fixed === "left")] *)
Definition fixedLeftColumns (columns : list loc) : list loc :=
  filter (λ column, fixed (obj column) = Some FixedLeft) columns.

(** [columns.filter((column) => column.fixed === "right").reverse()] *)
Definition fixedRightColumns (columns : list loc) : list loc :=
  reverse (filter (λ column, fixed (obj column) = Some FixedRight) columns).

(** [columns.filter(column => !fixedLeftColumns.includes(column)
                              && !fixedRightColumns.includes(column))];
    [includes] compares references. *)
Definition nofixedColumns (columns : list loc) : list loc :=
  filter (λ column, (column ∉ fixedLeftColumns columns)
                    ∧ (column ∉ fixedRightColumns columns)) columns.
End columns.

(** ** The rendered tree *)

Inductive Glyph := ArrowUp | ArrowDown.

(** A header cell: the column it renders, its title and, when the column is
    sortable, its button together with the glyph the button shows. *)
Record Th := {
  th_column : loc;
  th_title : string;
  th_button : option (option Glyph);
}.

(** A body cell: the result of the column's [render], or the raw field. *)
Inductive Td (value node : Type) :=
  | Custom (n : node)
  | Raw (v : value).
Arguments Custom {value node} _.
Arguments Raw {value node} _.

(** The pagination bar: the two numbers of "Page X of Y" and one button per
    [pageNumber]. *)
Record PaginationBar := {
  bar_page : Z;
  bar_total : Z;
  bar_buttons : list Z;
}.

Record View (value node : Type) := {
  thead : list Th;
  tbody : list (list (Td value node));
  pagination : option PaginationBar;
}.
Arguments thead {value node} _.
Arguments tbody {value node} _.
Arguments pagination {value node} _.

(** ** The store of row arrays *)

Section store.
Context {T : Type}.

(** A computation over the store of row arrays; [None] is a thrown
    exception. *)
Definition St (A : Type) : Type := gmap loc (list T) → option (A * gmap loc (list T)).

Global Instance St_ret : MRet St := λ A a h, Some (a, h).

Global Instance St_bind : MBind St := λ A B k m h,
  match m h with
  | Some (a, h') => k a h'
  | None => None
  end.

Definition throw_if_none {A} (o : option A) : St A :=
  λ h, match o with Some a => Some (a, h) | None => None end.

(** Reading the contents of an array. *)
Definition contents (r : loc) : St (list T) :=
  λ h, match h !! r with Some l => Some (l, h) | None => None end.

(** A new array object. *)
Definition alloc (l : list T) : St loc :=
  λ h, let r := fresh (dom h) in Some (r, <[r := l]> h).

(** Overwriting the contents of an existing array. *)
Definition store (r : loc) (l : list T) : St unit :=
  λ h, match h !! r with Some _ => Some ((), <[r := l]> h) | None => None end.

(** [data.length] *)
Definition Array_length (r : loc) : St Z :=
  l ← contents r; mret (Z.of_nat (length l)).

(** [[...r]]: a new array with the same elements. *)
Definition spread (r : loc) : St loc :=
  l ← contents r; alloc l.

(** [r.sort(comparefn)]: sorts [r] in place and returns [r] itself. *)
Definition Array_sort (comparefn : T → T → Z) (r : loc) : St loc :=
  l ← contents r; store r (Js.sort comparefn l);; mret r.

(** [r.slice(start, end)]: a new array. *)
Definition Array_slice (r : loc) (start end_ : Z) : St loc :=
  l ← contents r; alloc (Js.slice l start end_).

(** [[...data].sort(comparefn)]: the copy is sorted, not [data]. *)
Definition sorted_copy (comparefn : T → T → Z) (data : loc) : St loc :=
  copy ← spread data; Array_sort comparefn copy.
End store.

(** ** The component *)

(** [interface TableProps<T>].  [data] is a reference to the caller's array.
    [size] and [scroll] only select style classes and are left out. *)
Record TableProps := {
  data : loc;
  columns : list loc;
  defaultSortColumn : option string;
  defaultSortDirection : option Direction;
  pageSize : option Z;
}.

(** The initial values given to the two [useState] calls. *)
Definition initialState (props : TableProps) : WidgetState :=
  {| currentPage := 1;
     sortState :=
       {| columnKey := default "" (defaultSortColumn props);
          direction := default asc (defaultSortDirection props) |} |}.

Section widget.
Context {T value node : Type} `{!RowType T value}.
Context (obj : loc → TableColumn T value node).

(** The header cells of one column group. *)
Definition HeaderColumns (cols : list loc) (st : WidgetState) : list Th :=
  (λ column,
     {| th_column := column;
        th_title := title (obj column);
        th_button :=
          if default false (sortable (obj column)) then
            Some (if decide (columnKey (sortState st) = key (obj column))
                  then Some (if decide (direction (sortState st) = asc)
                             then ArrowUp else ArrowDown)
                  else None)
          else None |}) <$> cols.

(** [const tableHeader]: left-fixed, then unfixed, then right-fixed. *)
Definition tableHeader (cols : list loc) (st : WidgetState) : list Th :=
  HeaderColumns (fixedLeftColumns obj cols) st
  ++ HeaderColumns (nofixedColumns obj cols) st
  ++ HeaderColumns (fixedRightColumns obj cols) st.

(** [Column]: [column.render ? column.render(row[column.key], row)
                              : row[column.key]] *)
Definition Column (column : loc) (row : T) : Td value node :=
  match render (obj column) with
  | Some f => Custom (f (get row (key (obj column))) row)
  | None => Raw (get row (key (obj column)))
  end.

Definition BodyColumns (row : T) (cols : list loc) : list (Td value node) :=
  (λ column, Column column row) <$> cols.

(** [const tableBody]: one [tr] per visible row. *)
Definition tableBody (cols : list loc) (visible : list T)
  : list (list (Td value node)) :=
  (λ row, BodyColumns row (fixedLeftColumns obj cols)
          ++ BodyColumns row (nofixedColumns obj cols)
          ++ BodyColumns row (fixedRightColumns obj cols)) <$> visible.

(** [function Table<T>(props)]: one render in state [st]. *)
Definition Table (props : TableProps) (st : WidgetState)
  : St (T := T) (View value node) :=
  let pageSize := default 10 (pageSize props) in
  rowCount ← Array_length (data props);
  let totalPages := totalPages rowCount pageSize in
  sorted ← sorted_copy (compareRows (sortState st)) (data props);
  let startRowIndex := startRowIndex pageSize (currentPage st) in
  let endRowIndex := endRowIndex rowCount pageSize (currentPage st) in
  visible ← Array_slice sorted startRowIndex endRowIndex;
  rows ← contents visible;
  let body := tableBody (columns props) rows in
  pageNumbers ← throw_if_none (Js.Array_keys totalPages);
  mret {| thead := tableHeader (columns props) st;
         tbody := body;
         pagination := if decide (1 < totalPages)
                  then Some {| bar_page := currentPage st;
                               bar_total := totalPages;
                               bar_buttons := pageNumbers |}
                  else None |}.
End widget.

(** ** Orders on field values

    The conditions under which the comparator is consistent on a list of
    field values, as computable checks. *)

Section value_order.
Context {T value : Type} `{!RowType T value}.

(** The values [vs] are pairwise distinct: no value is [===] to a value at a
    later position. *)
Fixpoint distinct_values (vs : list value) : bool :=
  match vs with
  | [] => true
  | v :: vs' => forallb (λ w, negb (strict_eq v w)) vs' && distinct_values vs'
  end.

(** On the values [vs], [<] is a strict total order: any two values are
    [===] or related by [<] one way or the other, never both ways, and [<]
    is transitive. *)
Definition trichotomous (vs : list value) : bool :=
  forallb (λ v, forallb (λ w,
    strict_eq v w || less_than v w || less_than w v) vs) vs.

Definition asymmetric (vs : list value) : bool :=
  forallb (λ v, forallb (λ w,
    implb (less_than v w) (negb (less_than w v))) vs) vs.

Definition transitive (vs : list value) : bool :=
  forallb (λ u, forallb (λ v, forallb (λ w,
    implb (less_than u v && less_than v w) (less_than u w)) vs) vs) vs.

Definition strict_total_order (vs : list value) : bool :=
  trichotomous vs && asymmetric vs && transitive vs.

(** The column of values that the rows hold in the field [k]. *)
Definition field_values (k : string) (data : list T) : list value :=
  (λ row, get row k) <$> data.

(** The row [a] holds a smaller value than the row [b] in the sort column
    (ascending), or a larger one (descending). *)
Definition precedes (s : SortState) : relation T :=
  λ a b, match direction s with
         | asc => less_than (get a (columnKey s)) (get b (columnKey s)) = true
         | desc => less_than (get b (columnKey s)) (get a (columnKey s)) = true
         end.
End value_order.

(** The opposite of a sort direction. *)
Definition opposite (d : Direction) : Direction :=
  match d with asc => desc | desc => asc end.

(** ** Rows with numeric fields

    A concrete row type: an object whose fields hold integers.  Reading a
    missing field gives [undefined], which is [None]; [===] on numbers and
    [undefined] is equality, and [<] is false as soon as one side is
    [undefined]. *)

Module NumericRows.

Global Instance row_type : RowType (gmap string Z) (option Z) := {|
  get r k := r !! k;
  strict_eq a b := bool_decide (a = b);
  less_than a b :=
    match a, b with
    | Some x, Some y => bool_decide (x < y)
    | _, _ => false
    end;
|}.

Definition person (id age : Z) : gmap string Z :=
  {[ "id" := id; "age" := age ]}.

Definition people : list (gmap string Z) :=
  [person 0 31; person 1 25; person 2 47; person 3 19; person 4 52].

(** Three column descriptors: a left-fixed [id], a sortable [age] and a
    right-fixed [id] with a custom renderer. *)
Definition column_store (r : loc) : TableColumn (gmap string Z) (option Z) string :=
  match r with
  | 1%positive =>
      {| key := "id"; title := "ID"; sortable := None;
         fixed := Some FixedLeft; width := Some 100; render := None |}
  | 2%positive =>
      {| key := "age"; title := "Age"; sortable := Some true;
         fixed := None; width := None; render := None |}
  | _ =>
      {| key := "id"; title := "Key"; sortable := None;
         fixed := Some FixedRight; width := Some 100;
         render := Some (λ _ _, "#") |}
  end.

Definition props : TableProps :=
  {| data := 1%positive; columns := [1; 2; 3]%positive;
     defaultSortColumn := Some "age"; defaultSortDirection := None;
     pageSize := Some 2 |}.

Definition heap0 : gmap loc (list (gmap string Z)) := {[ 1%positive := people ]}.

(** A hundred rows numbered like those of the demo page: [id = i] and
    [age = i + 1] for [i = 0 .. 99]. *)
Definition numbered : list (gmap string Z) :=
  (λ i, person i (i + 1)) <$> seqZ 0 100.

End NumericRows.

(** ** Sticky offsets of the fixed groups *)

(** The [fixType] handed to [HeaderColumns] and [BodyColumns]. *)
Inductive FixType := fix_left | fix_none | fix_right.

Global Instance FixType_eq_dec : EqDecision FixType.
Proof. solve_decision. Defined.

(** [column.width && column.width * index]: a missing width stays
    [undefined], a zero width stays zero. *)
Definition widthTimesIndex (width : option Z) (index : Z) : option Z :=
  match width with
  | None => None
  | Some w => if Js.truthy w then Some (w * index) else Some w
  end.

(** [left: fixType === 'left' ? column.width && column.width * index
                              : undefined] *)
Definition style_left (fixType : FixType) (width : option Z) (index : Z)
  : option Z :=
  if decide (fixType = fix_left) then widthTimesIndex width index else None.

(** [right: fixType === 'right' ? column.width && column.width * index
                                : undefined] *)
Definition style_right (fixType : FixType) (width : option Z) (index : Z)
  : option Z :=
  if decide (fixType = fix_right) then widthTimesIndex width index else None.

Section offsets.
Context {T value node : Type}.
Context (obj : loc → TableColumn T value node).

(** The [left] and [right] style properties of the cells that
    [columns.map((column, index) => ...)] produces for one group; the header
    cells and the body cells of a group use the same two formulas. *)
Definition cellOffsets (fixType : FixType) (cols : list loc)
  : list (option Z * option Z) :=
  imap (λ index column,
          (style_left fixType (width (obj column)) (Z.of_nat index),
           style_right fixType (width (obj column)) (Z.of_nat index))) cols.

(** The total declared width of the columns of a group that come before
    position [i]. *)
Definition widthBefore (cols : list loc) (i : nat) : Z :=
  foldr Z.add 0 ((λ column, default 0 (width (obj column))) <$> take i cols).
End offsets.

(** ** Events *)

(** The two kinds of button of the rendered tree. *)
Inductive Event :=
  | HeaderClick (column : loc)
  | PageClick (pageNumber : Z).

Global Instance Event_eq_dec : EqDecision Event.
Proof. solve_decision. Defined.

(** The buttons that a rendered tree offers: one per header cell of a
    sortable column, and the page buttons of the pagination bar when the
    bar is shown. *)
Definition buttons {value node} (v : View value node) : list Event :=
  ((λ th, HeaderClick (th_column th))
     <$> filter (λ th, is_Some (th_button th)) (thead v))
  ++ match pagination v with
     | Some bar => PageClick <$> bar_buttons bar
     | None => []
     end.

Section events.
Context {T value node : Type} `{!RowType T value}.
Context (obj : loc → TableColumn T value node).

(** The handler that a button runs. *)
Definition dispatch (e : Event) (st : WidgetState) : WidgetState :=
  match e with
  | HeaderClick column => HeaderColumns_onClick (key (obj column)) st
  | PageClick pageNumber => pagination_onClick pageNumber st
  end.

(** One interaction: the component renders in the current state, the user
    clicks one of the buttons of that render, and the handler gives the
    next state.  The store carries over to the next render. *)
Inductive step (props : TableProps)
  : relation (gmap loc (list T) * WidgetState) :=
  | step_click h st v h' e :
      Table obj props st h = Some (v, h') →
      e ∈ buttons v →
      step props (h, st) (h', dispatch e st).
End events.

(** ** Orders with ties *)

Section weak_order.
Context {T value : Type} `{!RowType T value}.

(** Values that are [===] are not related by [<]. *)
Definition equal_unrelated (vs : list value) : bool :=
  forallb (λ v, forallb (λ w,
    implb (strict_eq v w) (negb (less_than v w) && negb (less_than w v)))
    vs) vs.

(** "Not greater than" is transitive. *)
Definition not_greater_transitive (vs : list value) : bool :=
  forallb (λ u, forallb (λ v, forallb (λ w,
    implb (negb (less_than v u) && negb (less_than w v))
          (negb (less_than w u))) vs) vs) vs.

(** On the values [vs], [<] orders the classes of [===] values. *)
Definition weak_order (vs : list value) : bool :=
  asymmetric vs && equal_unrelated vs && not_greater_transitive vs.

(** On the values [vs], any two values are [===] or related by [<], and [<]
    orders the classes of [===] values.  The comparator is consistent on
    rows that hold such values: it answers 0 exactly on [===] values, and
    its answers for [a, b] and for [b, a] mirror each other. *)
Definition total_preorder (vs : list value) : bool :=
  trichotomous vs && weak_order vs.

(** The row [a] may stay before the row [b]: its value in the sort column
    is not greater (ascending), or not smaller (descending). *)
Definition in_order (s : SortState) : relation T :=
  λ a b, match direction s with
         | asc => less_than (get b (columnKey s)) (get a (columnKey s)) = false
         | desc => less_than (get a (columnKey s)) (get b (columnKey s)) = false
         end.
End weak_order.

Module Samples.

(** Rows with repeated ages. *)
Definition cohort : list (gmap string Z) :=
  [NumericRows.person 0 30; NumericRows.person 1 25; NumericRows.person 2 30;
   NumericRows.person 3 25; NumericRows.person 4 41; NumericRows.person 5 30].

(** Two left-fixed columns of width 100, an unfixed sortable column and a
    right-fixed column of width 80. *)
Definition column_store (r : loc)
  : TableColumn (gmap string Z) (option Z) string :=
  match r with
  | 1%positive =>
      {| key := "id"; title := "ID"; sortable := None;
         fixed := Some FixedLeft; width := Some 100; render := None |}
  | 2%positive =>
      {| key := "age"; title := "Age"; sortable := Some true;
         fixed := Some FixedLeft; width := Some 100; render := None |}
  | 3%positive =>
      {| key := "age"; title := "Years"; sortable := Some true;
         fixed := None; width := None; render := None |}
  | _ =>
      {| key := "id"; title := "Key"; sortable := Some true;
         fixed := Some FixedRight; width := Some 80; render := None |}
  end.

(** Rows that are in ascending order of age already, with a tie. *)
Definition ranked : list (gmap string Z) :=
  [NumericRows.person 7 19; NumericRows.person 3 25; NumericRows.person 5 25;
   NumericRows.person 1 40].

Definition unsorted_props : TableProps :=
  {| data := 1%positive; columns := [1; 2; 3; 4]%positive;
     defaultSortColumn := None; defaultSortDirection := Some desc;
     pageSize := Some 4 |}.

Definition negative_props : TableProps :=
  {| data := 1%positive; columns := [1; 2; 3; 4]%positive;
     defaultSortColumn := None; defaultSortDirection := None;
     pageSize := Some (-2) |}.

Definition heap0 : gmap loc (list (gmap string Z)) :=
  {[ 1%positive := cohort ]}.

End Samples.

(** * Properties *)

(** ** Arithmetic of the page count *)

Lemma Math_ceil_div_bounds (n d : Z) :
  0 < d →
  (Js.Math_ceil_div n d - 1) * d < n ≤ Js.Math_ceil_div n d * d.
Proof.
  intros Hd. unfold Js.Math_ceil_div.
  pose proof (Z.div_mod (- n) d ltac:(lia)) as Hdm.
  pose proof (Z.mod_pos_bound (- n) d Hd) as Hm.
  nia.
Qed.

Lemma Math_ceil_div_nonneg (n d : Z) :
  0 ≤ n → 0 < d → 0 ≤ Js.Math_ceil_div n d ≤ n.
Proof.
  intros Hn Hd. pose proof (Math_ceil_div_bounds n d Hd). nia.
Qed.

Lemma truthy_pos (n : Z) : 0 < n → Js.truthy n = true.
Proof. intros. unfold Js.truthy. apply bool_decide_eq_true. lia. Qed.

Lemma truthy_zero : Js.truthy 0 = false.
Proof. reflexivity. Qed.

Lemma totalPages_paged (rowCount pageSize : Z) :
  0 < pageSize →
  (totalPages rowCount pageSize - 1) * pageSize
  < rowCount ≤ totalPages rowCount pageSize * pageSize.
Proof.
  intros Hp. unfold totalPages. rewrite truthy_pos by done.
  by apply Math_ceil_div_bounds.
Qed.

(** C1, as the code computes it.  For a row count [rowCount ≥ 0]: with
    paging disabled ([pageSize = 0]) [totalPages] is 1; with a positive
    [pageSize] it is exactly the ceiling of [rowCount / pageSize], that is
    the least [n] with [rowCount ≤ n * pageSize], and no minimum of 1 is
    applied: it is 0 exactly when there are no rows. *)
Theorem totalPages_is_ceiling (rowCount pageSize : Z) :
  0 ≤ rowCount → 0 ≤ pageSize →
  let n := totalPages rowCount pageSize in
  if decide (pageSize = 0) then n = 1
  else (n - 1) * pageSize < rowCount ≤ n * pageSize
       ∧ (rowCount = 0 → n = 0)
       ∧ (0 < rowCount → 1 ≤ n).
Proof.
  intros Hr Hp n. subst n.
  destruct (decide (pageSize = 0)) as [->|Hne]; [done|].
  pose proof (totalPages_paged rowCount pageSize ltac:(lia)).
  split; [done|]. split; intros; nia.
Qed.

Lemma totalPages_is_ceiling_witness :
  (totalPages 25 10 - 1) * 10 < 25 ≤ totalPages 25 10 * 10
  ∧ (25 = 0 → totalPages 25 10 = 0)
  ∧ (0 < 25 → 1 ≤ totalPages 25 10).
Proof.
  apply (totalPages_is_ceiling 25 10); lia.
Defined.

(** C1, the case the code does not meet: with no rows and a positive page
    size, [totalPages] is 0, below the minimum of 1 that is claimed. *)
Lemma totalPages_no_rows_is_zero :
  totalPages 0 10 = 0 ∧ ¬ (1 ≤ totalPages 0 10) ∧ totalPages 0 10 ≠ 1.
Proof. vm_compute. split; [done|]. split; [|done]. intros H. by apply H. Qed.

(** ** The two event handlers *)

Section handlers.
Context {T value node : Type}.
Context (obj : loc → TableColumn T value node).

Lemma HeaderColumns_lookup (cols : list loc) (st : WidgetState) (c : loc) :
  c ∈ cols →
  ∃ th, th ∈ HeaderColumns obj cols st ∧ th_column th = c
        ∧ (is_Some (th_button th) ↔ default false (sortable (obj c)) = true).
Proof.
  intros Hc. eexists. split.
  - unfold HeaderColumns. apply list_elem_of_fmap. exists c. split; [reflexivity|done].
  - simpl. split; [done|]. destruct (default false (sortable (obj c))).
    + split; [done|]. intros _. eexists. reflexivity.
    + split; [|done]. intros [? ?]. done.
Qed.
End handlers.

(** C10.  Clicking the button of page [pageNumber + 1] makes that page the
    current page and leaves the sort state as it was; when that page is the
    current page already, the whole state is unchanged. *)
Theorem page_click_sets_only_the_page (pageNumber : Z) (st : WidgetState) :
  let st' := pagination_onClick pageNumber st in
  currentPage st' = pageNumber + 1
  ∧ sortState st' = sortState st
  ∧ columnKey (sortState st') = columnKey (sortState st)
  ∧ direction (sortState st') = direction (sortState st)
  ∧ (currentPage st = pageNumber + 1 → st' = st).
Proof.
  destruct st as [p s]. simpl. repeat split. by intros ->.
Qed.

Lemma page_click_sets_only_the_page_witness :
  pagination_onClick 2
    {| currentPage := 3;
       sortState := {| columnKey := "age"; direction := desc |} |}
  = {| currentPage := 3;
       sortState := {| columnKey := "age"; direction := desc |} |}.
Proof.
  apply (page_click_sets_only_the_page 2
           {| currentPage := 3;
              sortState := {| columnKey := "age"; direction := desc |} |}).
  reflexivity.
Defined.

(** ** The three column groups *)

Lemma filter_ext_on {A} (P1 P2 : A → Prop)
    `{!∀ x, Decision (P1 x), !∀ x, Decision (P2 x)} (l : list A) :
  (∀ x, x ∈ l → P1 x ↔ P2 x) → filter P1 l = filter P2 l.
Proof.
  induction l as [|a l IH]; intros Hiff; [done|].
  rewrite !filter_cons, IH by (intros; apply Hiff; by right).
  apply decide_ext, Hiff. by left.
Qed.

Section column_groups.
Context {T value node : Type}.
Context (obj : loc → TableColumn T value node).
Implicit Types (cols : list loc) (c : loc).

Lemma elem_of_fixedLeftColumns cols c :
  c ∈ fixedLeftColumns obj cols ↔ c ∈ cols ∧ fixed (obj c) = Some FixedLeft.
Proof. unfold fixedLeftColumns. rewrite list_elem_of_filter. tauto. Qed.

Lemma elem_of_fixedRightColumns cols c :
  c ∈ fixedRightColumns obj cols ↔ c ∈ cols ∧ fixed (obj c) = Some FixedRight.
Proof.
  unfold fixedRightColumns. rewrite elem_of_reverse, list_elem_of_filter. tauto.
Qed.

(** Testing membership in the two fixed groups by reference amounts to
    testing the [fixed] property of the column itself. *)
Lemma nofixedColumns_by_property cols :
  nofixedColumns obj cols
  = filter (λ c, fixed (obj c) ≠ Some FixedLeft
                 ∧ fixed (obj c) ≠ Some FixedRight) cols.
Proof.
  unfold nofixedColumns. apply filter_ext_on. intros c Hc.
  rewrite elem_of_fixedLeftColumns, elem_of_fixedRightColumns. tauto.
Qed.

Lemma elem_of_nofixedColumns cols c :
  c ∈ nofixedColumns obj cols
  ↔ c ∈ cols ∧ fixed (obj c) ≠ Some FixedLeft
    ∧ fixed (obj c) ≠ Some FixedRight.
Proof. rewrite nofixedColumns_by_property, list_elem_of_filter. tauto. Qed.

Lemma column_groups_Permutation cols :
  fixedLeftColumns obj cols ++ nofixedColumns obj cols
    ++ fixedRightColumns obj cols ≡ₚ cols.
Proof.
  rewrite nofixedColumns_by_property.
  unfold fixedLeftColumns, fixedRightColumns. rewrite reverse_Permutation.
  induction cols as [|c cols IH]; [done|].
  rewrite !filter_cons.
  destruct (fixed (obj c)) as [[]|] eqn:Hf.
  - rewrite decide_True by done.
    rewrite decide_False by (intros [? ?]; congruence).
    rewrite decide_False by congruence.
    simpl. by rewrite IH.
  - rewrite decide_False by congruence.
    rewrite decide_False by (intros [? ?]; congruence).
    rewrite decide_True by done.
    do 2 rewrite <- Permutation_middle. by rewrite IH.
  - rewrite decide_False by congruence.
    rewrite decide_True by (split; congruence).
    rewrite decide_False by congruence.
    simpl. rewrite <- Permutation_middle. by rewrite IH.
Qed.

(** C6.  The three groups are disjoint, each lists its columns in their
    original relative order (the right-fixed group once its reversal is
    undone), and together they hold exactly the original columns, every
    occurrence once. *)
Theorem column_groups_partition cols :
  let leftFixed := fixedLeftColumns obj cols in
  let unfixed := nofixedColumns obj cols in
  let rightFixedReversed := fixedRightColumns obj cols in
  leftFixed ++ unfixed ++ rightFixedReversed ≡ₚ cols
  ∧ (∀ c, ¬ (c ∈ leftFixed ∧ c ∈ unfixed)
          ∧ ¬ (c ∈ leftFixed ∧ c ∈ rightFixedReversed)
          ∧ ¬ (c ∈ unfixed ∧ c ∈ rightFixedReversed))
  ∧ leftFixed `sublist_of` cols
  ∧ unfixed `sublist_of` cols
  ∧ reverse rightFixedReversed `sublist_of` cols
  ∧ (∀ c, c ∈ leftFixed ↔ c ∈ cols ∧ fixed (obj c) = Some FixedLeft)
  ∧ (∀ c, c ∈ rightFixedReversed
          ↔ c ∈ cols ∧ fixed (obj c) = Some FixedRight)
  ∧ (∀ c, c ∈ unfixed
          ↔ c ∈ cols ∧ fixed (obj c) ≠ Some FixedLeft
            ∧ fixed (obj c) ≠ Some FixedRight).
Proof.
  intros leftFixed unfixed rightFixedReversed.
  subst leftFixed unfixed rightFixedReversed.
  split; [apply column_groups_Permutation|].
  split.
  { intros c. rewrite elem_of_fixedLeftColumns, elem_of_fixedRightColumns,
      elem_of_nofixedColumns. intuition congruence. }
  split; [apply sublist_filter|].
  split; [apply sublist_filter|].
  split.
  { unfold fixedRightColumns. rewrite reverse_involutive. apply sublist_filter. }
  split; [apply elem_of_fixedLeftColumns|].
  split; [apply elem_of_fixedRightColumns|apply elem_of_nofixedColumns].
Qed.

(** Every column of the schema has its header cell. *)
Lemma tableHeader_lookup cols (st : WidgetState) c :
  c ∈ cols →
  ∃ th, th ∈ tableHeader obj cols st ∧ th_column th = c
        ∧ (is_Some (th_button th) ↔ default false (sortable (obj c)) = true).
Proof.
  intros Hc. rewrite <- (column_groups_Permutation cols) in Hc.
  unfold tableHeader. rewrite !elem_of_app in Hc.
  destruct Hc as [Hc|[Hc|Hc]];
    destruct (HeaderColumns_lookup obj _ st c Hc) as (th & Hth & ?);
    exists th; (split; [|done]); rewrite !elem_of_app; tauto.
Qed.

(** C2.  A sortable column of the schema has a header button, and clicking
    it makes the column the active sort column, sets the direction to the
    opposite of the direction held in the sort state (whichever column was
    active), and sets the current page to 1. *)
Theorem header_click_sorts_and_resets_page cols (st : WidgetState) c :
  c ∈ cols → default false (sortable (obj c)) = true →
  (∃ th, th ∈ tableHeader obj cols st ∧ th_column th = c
         ∧ is_Some (th_button th))
  ∧ columnKey (sortState (HeaderColumns_onClick (key (obj c)) st))
    = key (obj c)
  ∧ direction (sortState (HeaderColumns_onClick (key (obj c)) st))
    = opposite (direction (sortState st))
  ∧ currentPage (HeaderColumns_onClick (key (obj c)) st) = 1.
Proof.
  intros Hc Hs. split.
  - destruct (tableHeader_lookup cols st c Hc) as (th & ? & ? & Hb).
    exists th. by rewrite Hb.
  - simpl. repeat split. by destruct (direction (sortState st)).
Qed.
End column_groups.

Lemma header_click_sorts_and_resets_page_witness :
  let st := {| currentPage := 3;
               sortState := {| columnKey := "id"; direction := desc |} |} in
  let st' := HeaderColumns_onClick "age" st in
  columnKey (sortState st') = "age"
  ∧ direction (sortState st') = asc
  ∧ currentPage st' = 1.
Proof.
  intros st st'.
  apply (header_click_sorts_and_resets_page NumericRows.column_store
           [1; 2; 3]%positive st 2%positive).
  - apply list_elem_of_In. simpl. tauto.
  - reflexivity.
Defined.

(** ** The host sort and slice on lists *)

Section host_sort.
Context {A : Type} (comparefn : A → A → Z).

Lemma insert_Permutation (a : A) (l : list A) :
  Js.insert comparefn a l ≡ₚ a :: l.
Proof.
  induction l as [|b l IH]; simpl; [done|].
  destruct (decide (0 < comparefn a b)); [|done].
  rewrite IH. apply Permutation_swap.
Qed.

Lemma sort_Permutation (l : list A) : Js.sort comparefn l ≡ₚ l.
Proof.
  induction l as [|a l IH]; simpl; [done|].
  by rewrite insert_Permutation, IH.
Qed.

Lemma sort_length (l : list A) : length (Js.sort comparefn l) = length l.
Proof. by rewrite sort_Permutation. Qed.
End host_sort.

(** With both indices non-negative, [slice] keeps the elements at the
    positions [start ≤ i < end]. *)
Lemma slice_nonneg {A} (l : list A) (start end_ : Z) :
  0 ≤ start → 0 ≤ end_ →
  Js.slice l start end_
  = take (Z.to_nat end_ - Z.to_nat start) (drop (Z.to_nat start) l).
Proof.
  intros Hs He. unfold Js.slice, Js.relative_index.
  rewrite !decide_False by lia.
  destruct (decide (start ≤ Z.of_nat (length l))) as [Hle|Hgt].
  - rewrite (Z.min_l start) by done.
    destruct (decide (end_ ≤ Z.of_nat (length l))).
    + rewrite Z.min_l by done. f_equal. lia.
    + rewrite Z.min_r by lia.
      rewrite !take_ge; [done| |]; rewrite length_drop; lia.
  - rewrite (Z.min_r start) by lia.
    rewrite Nat2Z.id, (drop_ge l (length l)) by lia.
    rewrite (drop_ge l (Z.to_nat start)) by lia. by rewrite !take_nil.
Qed.

Lemma slice_past_the_end {A} (l : list A) (start end_ : Z) :
  Z.of_nat (length l) ≤ start → Js.slice l start end_ = [].
Proof.
  intros Hs. unfold Js.slice, Js.relative_index.
  rewrite (decide_False (P := start < 0)) by lia.
  rewrite (Z.min_r start) by lia.
  rewrite Nat2Z.id, (drop_ge l (length l)) by lia. apply take_nil.
Qed.

Lemma slice_all {A} (l : list A) :
  Js.slice l 0 (Z.of_nat (length l)) = l.
Proof.
  rewrite slice_nonneg by lia. simpl. rewrite Nat2Z.id, Nat.sub_0_r.
  by apply take_ge.
Qed.

(** The first [n] pages of [pageSize] elements each, laid end to end, are
    the first [n * pageSize] elements. *)
Lemma concat_page_slices {A} (l : list A) (pageSize : Z) (n : nat) :
  0 < pageSize →
  concat ((λ p, Js.slice l ((p - 1) * pageSize)
                  ((p - 1) * pageSize + pageSize))
          <$> seqZ 1 (Z.of_nat n))
  = take (n * Z.to_nat pageSize) l.
Proof.
  intros Hp. induction n as [|n IH]; [done|].
  rewrite seqZ_S, fmap_app, concat_app, IH. simpl. rewrite app_nil_r.
  rewrite slice_nonneg by nia.
  replace (1 + Z.of_nat n - 1) with (Z.of_nat n) by lia.
  replace (Z.to_nat (Z.of_nat n * pageSize)) with (n * Z.to_nat pageSize)%nat
    by nia.
  replace (Z.to_nat (Z.of_nat n * pageSize + pageSize)
           - n * Z.to_nat pageSize)%nat with (Z.to_nat pageSize) by nia.
  rewrite take_take_drop. f_equal. lia.
Qed.

(** ** Pagination of the sorted rows *)

Section paging.
Context {T value : Type} `{!RowType T value}.
Implicit Types (data : list T) (s : SortState) (st : WidgetState).

Lemma sortedData_Permutation data s : sortedData data s ≡ₚ data.
Proof. apply sort_Permutation. Qed.

Lemma sortedData_length data s : length (sortedData data s) = length data.
Proof. apply sort_length. Qed.

Lemma visibleData_paged data pageSize st :
  pageSize ≠ 0 →
  visibleData data pageSize st
  = Js.slice (sortedData data (sortState st))
      ((currentPage st - 1) * pageSize)
      ((currentPage st - 1) * pageSize + pageSize).
Proof.
  intros Hp. unfold visibleData, endRowIndex, startRowIndex, Js.truthy.
  by rewrite bool_decide_eq_true_2.
Qed.

Lemma visibleData_unpaged data st :
  visibleData data 0 st = sortedData data (sortState st).
Proof.
  unfold visibleData, endRowIndex, startRowIndex. simpl.
  rewrite <- (sortedData_length data (sortState st)). apply slice_all.
Qed.

(** C5.  For a positive page size and a fixed sort state, the visible
    slices of the pages 1, 2, ..., [totalPages], laid end to end, are the
    sorted rows; these are the rows of the input, each exactly once. *)
Theorem pages_cover_sortedData data pageSize s :
  0 < pageSize →
  concat ((λ p, visibleData data pageSize
                  {| currentPage := p; sortState := s |})
          <$> seqZ 1 (totalPages (Z.of_nat (length data)) pageSize))
  = sortedData data s
  ∧ sortedData data s ≡ₚ data.
Proof.
  intros Hp. split; [|apply sortedData_Permutation].
  pose proof (totalPages_paged (Z.of_nat (length data)) pageSize Hp) as Hn.
  set (n := totalPages (Z.of_nat (length data)) pageSize) in *.
  assert (0 ≤ n) as Hn0 by nia.
  rewrite <- (Z2Nat.id n Hn0).
  transitivity (take (Z.to_nat n * Z.to_nat pageSize) (sortedData data s));
    [|apply take_ge; rewrite sortedData_length; nia].
  rewrite <- (concat_page_slices _ pageSize) by done.
  f_equal. apply list_fmap_ext. intros _ p _.
  by rewrite visibleData_paged by lia.
Qed.

(** C7.  With [currentPage ≥ 1]: when paging is disabled the visible rows
    are all the sorted rows; otherwise they are the rows of the sorted list
    at the positions [start ≤ i < end], in order, where
    [start = (currentPage - 1) * pageSize] and [end = start + pageSize]. *)
Theorem visibleData_is_contiguous_slice data pageSize st :
  1 ≤ currentPage st → 0 ≤ pageSize →
  let sorted := sortedData data (sortState st) in
  let start := (currentPage st - 1) * pageSize in
  let end_ := start + pageSize in
  if decide (pageSize = 0) then
    visibleData data pageSize st = sorted
    ∧ startRowIndex pageSize (currentPage st) = 0
    ∧ endRowIndex (Z.of_nat (length data)) pageSize (currentPage st)
      = Z.of_nat (length data)
  else
    startRowIndex pageSize (currentPage st) = start
    ∧ endRowIndex (Z.of_nat (length data)) pageSize (currentPage st) = end_
    ∧ ∀ i : nat,
        visibleData data pageSize st !! i
        = if decide (start + Z.of_nat i < end_)
          then sorted !! Z.to_nat (start + Z.of_nat i) else None.
Proof.
  intros Hc Hp sorted start end_.
  destruct (decide (pageSize = 0)) as [->|Hne].
  { split; [apply visibleData_unpaged|done]. }
  unfold endRowIndex, startRowIndex, Js.truthy.
  rewrite bool_decide_eq_true_2 by done.
  split; [done|]. split; [done|]. intros i.
  rewrite visibleData_paged by done. fold sorted start end_.
  rewrite slice_nonneg by (subst start end_; nia).
  rewrite lookup_take, lookup_drop.
  destruct (decide (start + Z.of_nat i < end_)).
  - rewrite decide_True by (subst start end_; nia).
    f_equal. subst start. nia.
  - by rewrite decide_False by (subst start end_; nia).
Qed.
End paging.

Lemma pages_cover_sortedData_witness :
  let s := {| columnKey := "age"; direction := asc |} in
  concat ((λ p, visibleData NumericRows.people 2
                  {| currentPage := p; sortState := s |})
          <$> seqZ 1 (totalPages 5 2))
  = sortedData NumericRows.people s
  ∧ sortedData NumericRows.people s ≡ₚ NumericRows.people.
Proof.
  intros s. apply (pages_cover_sortedData NumericRows.people 2 s). lia.
Defined.

Lemma visibleData_is_contiguous_slice_witness :
  let st := {| currentPage := 2;
               sortState := {| columnKey := "age"; direction := asc |} |} in
  startRowIndex 2 2 = 2
  ∧ endRowIndex 5 2 2 = 4
  ∧ ∀ i : nat,
      visibleData NumericRows.people 2 st !! i
      = if decide (2 + Z.of_nat i < 4)
        then sortedData NumericRows.people (sortState st)
               !! Z.to_nat (2 + Z.of_nat i)
        else None.
Proof.
  intros st.
  apply (visibleData_is_contiguous_slice NumericRows.people 2 st);
    simpl; lia.
Defined.

(** ** The comparator and the sorted order *)

Lemma StronglySorted_reverse {A} (R : relation A) (l : list A) :
  StronglySorted R l → StronglySorted (flip R) (reverse l).
Proof.
  induction 1 as [|a l Hl IH Ha]; [constructor|].
  rewrite reverse_cons. apply StronglySorted_app_2; [|done|repeat constructor].
  intros b a' Hb Ha'. apply list_elem_of_singleton in Ha' as ->.
  rewrite elem_of_reverse in Hb. rewrite Forall_forall in Ha.
  unfold flip. by apply Ha.
Qed.

Lemma insert_StronglySorted {A} (comparefn : A → A → Z) (R : relation A)
    (a : A) (l : list A) :
  (∀ b, b ∈ l → if decide (0 < comparefn a b) then R b a else R a b) →
  (∀ b c, b ∈ l → c ∈ l → R a b → R b c → R a c) →
  StronglySorted R l → StronglySorted R (Js.insert comparefn a l).
Proof.
  intros Hcmp Htr Hl. induction Hl as [|b l Hl IH Hb]; simpl.
  { repeat constructor. }
  rewrite Forall_forall in Hb.
  pose proof (Hcmp b ltac:(left)) as Hab. revert Hab.
  destruct (decide (0 < comparefn a b)); intros Hab.
  - constructor.
    + apply IH; intros; [apply Hcmp|eapply Htr]; eauto; by right.
    + apply Forall_forall. intros c Hc.
      rewrite insert_Permutation, elem_of_cons in Hc.
      destruct Hc as [->|Hc]; [done|by apply Hb].
  - constructor; [constructor; [done|by apply Forall_forall]|].
    constructor; [done|]. apply Forall_forall. intros c Hc.
    apply (Htr b c); [by left|by right|done|by apply Hb].
Qed.

Section sorting.
Context {T value : Type} `{!RowType T value}.
Implicit Types (data : list T) (s : SortState) (k : string) (a b : T).

Lemma compareRows_no_key d a b :
  compareRows {| columnKey := ""; direction := d |} a b = 0.
Proof. reflexivity. Qed.

Lemma compareRows_key s a b :
  columnKey s ≠ "" →
  compareRows s a b
  = if strict_eq (get a (columnKey s)) (get b (columnKey s)) then 0
    else if less_than (get a (columnKey s)) (get b (columnKey s))
         then match direction s with asc => -1 | desc => 1 end
         else match direction s with asc => 1 | desc => -1 end.
Proof.
  intros Hk. unfold compareRows, Js.truthy_string.
  rewrite bool_decide_eq_true_2 by done. simpl.
  destruct (strict_eq _ _); [done|].
  by destruct (direction s), (less_than _ _).
Qed.

End sorting.

Lemma forallb_elem_of {A} (f : A → bool) (l : list A) (x : A) :
  forallb f l = true → x ∈ l → f x = true.
Proof. rewrite forallb_forall, list_elem_of_In. auto. Qed.

Section sorted_order.
Context {T value : Type} `{!RowType T value}.
Implicit Types (data : list T) (s : SortState) (k : string) (a b : T).
Implicit Types (vs : list value) (u v w : value).

Lemma elem_of_field_values k data a :
  a ∈ data → get a k ∈ field_values k data.
Proof. apply (list_elem_of_fmap_2 (λ row, get row k)). Qed.

Lemma order_trichotomy vs v w :
  strict_total_order vs = true → v ∈ vs → w ∈ vs →
  strict_eq v w = false → less_than v w = true ∨ less_than w v = true.
Proof.
  unfold strict_total_order, trichotomous. rewrite !andb_true_iff.
  intros [[Htri _] _] Hv Hw Hne.
  pose proof (forallb_elem_of _ _ w (forallb_elem_of _ _ v Htri Hv) Hw) as H.
  simpl in H. rewrite Hne in H. simpl in H.
  by apply orb_true_iff in H.
Qed.

Lemma order_asymmetry vs v w :
  strict_total_order vs = true → v ∈ vs → w ∈ vs →
  less_than v w = true → less_than w v = false.
Proof.
  unfold strict_total_order, asymmetric. rewrite !andb_true_iff.
  intros [[_ Hasym] _] Hv Hw Hlt.
  pose proof (forallb_elem_of _ _ w (forallb_elem_of _ _ v Hasym Hv) Hw) as H.
  simpl in H. rewrite Hlt in H. simpl in H.
  by apply negb_true_iff in H.
Qed.

Lemma order_transitivity vs u v w :
  strict_total_order vs = true → u ∈ vs → v ∈ vs → w ∈ vs →
  less_than u v = true → less_than v w = true → less_than u w = true.
Proof.
  unfold strict_total_order, transitive. rewrite !andb_true_iff.
  intros [_ Htr] Hu Hv Hw Huv Hvw.
  pose proof (forallb_elem_of _ _ w (forallb_elem_of _ _ v
                (forallb_elem_of _ _ u Htr Hu) Hv) Hw) as H.
  simpl in H. by rewrite Huv, Hvw in H.
Qed.

(** Under a strict total order on pairwise distinct values, the host sort
    with the comparator puts the rows in the order [precedes]. *)
Lemma sortedData_StronglySorted vs data s :
  columnKey s ≠ "" →
  strict_total_order vs = true →
  (∀ a, a ∈ data → get a (columnKey s) ∈ vs) →
  distinct_values (field_values (columnKey s) data) = true →
  StronglySorted (precedes s) (sortedData data s).
Proof.
  intros Hk Hord. unfold sortedData.
  induction data as [|a data IH]; intros Hvs Hdist; simpl; [constructor|].
  simpl in Hdist. apply andb_true_iff in Hdist as [Ha Hdist].
  assert (∀ b, b ∈ data → get b (columnKey s) ∈ vs) as Hvs'
      by (intros; apply Hvs; by right).
  assert (get a (columnKey s) ∈ vs) as Hav by (apply Hvs; by left).
  apply insert_StronglySorted; [| |by apply IH].
  - intros b Hb. rewrite sort_Permutation in Hb.
    assert (strict_eq (get a (columnKey s)) (get b (columnKey s)) = false)
      as Hne.
    { apply negb_true_iff.
      apply (forallb_elem_of _ _ (get b (columnKey s)) Ha).
      by apply elem_of_field_values. }
    rewrite compareRows_key, Hne by done.
    destruct (order_trichotomy vs _ _ Hord Hav (Hvs' b Hb) Hne) as [Hlt|Hgt].
    + rewrite Hlt. unfold precedes.
      destruct (direction s); by rewrite ?decide_False, ?decide_True by lia.
    + rewrite (order_asymmetry vs _ _ Hord (Hvs' b Hb) Hav Hgt).
      unfold precedes.
      destruct (direction s); by rewrite ?decide_False, ?decide_True by lia.
  - intros b c Hb Hc. rewrite sort_Permutation in Hb, Hc.
    unfold precedes. destruct (direction s); intros Hab Hbc.
    + by apply (order_transitivity vs _ (get b (columnKey s)) _ Hord);
        auto.
    + by apply (order_transitivity vs _ (get b (columnKey s)) _ Hord);
        auto.
Qed.

(** Under the same conditions the sorted order is the only arrangement of
    the rows that respects [precedes]: any host sort that returns such an
    arrangement returns [sortedData]. *)
Lemma sortedData_unique data s (out : list T) :
  columnKey s ≠ "" →
  distinct_values (field_values (columnKey s) data) = true →
  strict_total_order (field_values (columnKey s) data) = true →
  out ≡ₚ data → StronglySorted (precedes s) out →
  out = sortedData data s.
Proof.
  intros Hk Hdist Hord Hperm Hout.
  apply (StronglySorted_unique_strong (precedes s)); [|done| |].
  - intros a b Ha Hb Hab Hba. exfalso.
    rewrite Hperm in Ha. rewrite sortedData_Permutation in Hb.
    apply (elem_of_field_values (columnKey s)) in Ha, Hb.
    unfold precedes in Hab, Hba. destruct (direction s).
    + pose proof (order_asymmetry _ _ _ Hord Ha Hb Hab). congruence.
    + pose proof (order_asymmetry _ _ _ Hord Hb Ha Hab). congruence.
  - apply (sortedData_StronglySorted (field_values (columnKey s) data));
      [done..| |done].
    intros. by apply elem_of_field_values.
  - by rewrite Hperm, sortedData_Permutation.
Qed.

(** C4.  For a field named by a non-empty key: when the rows hold pairwise
    distinct values in that field and [<] is a strict total order on these
    values, sorting the field descending gives exactly the reverse of
    sorting it ascending. *)
Theorem descending_is_ascending_reversed data k :
  k ≠ "" →
  distinct_values (field_values k data) = true →
  strict_total_order (field_values k data) = true →
  sortedData data {| columnKey := k; direction := desc |}
  = reverse (sortedData data {| columnKey := k; direction := asc |}).
Proof.
  intros Hk Hdist Hord.
  set (up := {| columnKey := k; direction := asc |}).
  set (down := {| columnKey := k; direction := desc |}).
  assert (∀ a, a ∈ data → get a k ∈ field_values k data) as Hvs
      by (intros; by apply elem_of_field_values).
  apply (StronglySorted_unique_strong (precedes down)).
  - intros a b Ha Hb Hab Hba. exfalso.
    rewrite sortedData_Permutation in Ha.
    rewrite elem_of_reverse, sortedData_Permutation in Hb.
    unfold precedes in Hab, Hba. simpl in Hab, Hba.
    pose proof (order_asymmetry _ _ _ Hord (Hvs b Hb) (Hvs a Ha) Hab).
    congruence.
  - by apply (sortedData_StronglySorted (field_values k data)).
  - apply (StronglySorted_reverse (precedes up)).
    by apply (sortedData_StronglySorted (field_values k data)).
  - by rewrite reverse_Permutation, !sortedData_Permutation.
Qed.
End sorted_order.

Lemma descending_is_ascending_reversed_witness :
  sortedData NumericRows.people {| columnKey := "age"; direction := desc |}
  = reverse
      (sortedData NumericRows.people {| columnKey := "age"; direction := asc |}).
Proof.
  apply (descending_is_ascending_reversed NumericRows.people "age");
    [discriminate|reflexivity|reflexivity].
Defined.

(** ** One render in the store *)

Section render.
Context {T value node : Type} `{!RowType T value}.
Context (obj : loc → TableColumn T value node).
Implicit Types (h : gmap loc (list T)) (rows : list T) (r d : loc).

Lemma bind_run {A B} (m : St (T := T) A) (k : A → St B) h a h' :
  m h = Some (a, h') → (m ≫= k) h = k a h'.
Proof. intros Hm. unfold mbind, St_bind. by rewrite Hm. Qed.

Lemma contents_run h r rows :
  h !! r = Some rows → contents r h = Some (rows, h).
Proof. intros Hr. unfold contents. by rewrite Hr. Qed.

Lemma fresh_unused h : h !! fresh (dom h) = None.
Proof. apply not_elem_of_dom, is_fresh. Qed.

Lemma sorted_copy_run comparefn h d rows :
  h !! d = Some rows →
  sorted_copy comparefn d h
  = Some (fresh (dom h), <[fresh (dom h) := Js.sort comparefn rows]> h).
Proof.
  intros Hd. unfold sorted_copy, spread, Array_sort.
  rewrite (bind_run _ _ h (fresh (dom h)) (<[fresh (dom h) := rows]> h)).
  2: { by rewrite (bind_run _ _ h rows h) by by apply contents_run. }
  rewrite (bind_run _ _ _ rows (<[fresh (dom h) := rows]> h)).
  2: { apply contents_run, lookup_insert_eq. }
  unfold store, mbind, St_bind, mret, St_ret.
  by rewrite lookup_insert_eq, insert_insert_eq.
Qed.

(** What one render computes, when the caller's array holds [rows]: two new
    arrays are added to the store (the sorted copy and the visible slice),
    and the render throws exactly when [Array(totalPages)] does. *)
Lemma Table_run props st h rows :
  h !! data props = Some rows →
  let size := default 10 (pageSize props) in
  let total := totalPages (Z.of_nat (length rows)) size in
  let h1 := <[fresh (dom h) := sortedData rows (sortState st)]> h in
  let h2 := <[fresh (dom h1) := visibleData rows size st]> h1 in
  Table obj props st h
  = match Js.Array_keys total with
    | Some pageNumbers =>
        Some ({| thead := tableHeader obj (columns props) st;
                 tbody := tableBody obj (columns props)
                            (visibleData rows size st);
                 pagination := if decide (1 < total)
                          then Some {| bar_page := currentPage st;
                                       bar_total := total;
                                       bar_buttons := pageNumbers |}
                          else None |}, h2)
    | None => None
    end.
Proof.
  intros Hd size total h1 h2. unfold Table.
  rewrite (bind_run _ _ h (Z.of_nat (length rows)) h).
  2: { unfold Array_length.
       by rewrite (bind_run _ _ h rows h) by by apply contents_run. }
  rewrite (bind_run _ _ h (fresh (dom h)) h1)
    by by apply sorted_copy_run.
  rewrite (bind_run _ _ h1 (fresh (dom h1)) h2).
  2: { unfold Array_slice.
       by rewrite (bind_run _ _ h1 (sortedData rows (sortState st)) h1)
         by apply contents_run, lookup_insert_eq. }
  rewrite (bind_run _ _ h2 (visibleData rows size st) h2)
    by apply contents_run, lookup_insert_eq.
  fold size total. unfold mbind, St_bind, throw_if_none.
  by destruct (Js.Array_keys total).
Qed.

Lemma render_store_frame h rows (l : loc) :
  let h1 := <[fresh (dom h) := rows]> h in
  ∀ rows', is_Some (h !! l) →
    <[fresh (dom h1) := rows']> h1 !! l = h !! l.
Proof.
  intros h1 rows' Hl.
  assert (l ≠ fresh (dom h)) as Hne1.
  { intros ->. rewrite fresh_unused in Hl. by destruct Hl. }
  assert (is_Some (h1 !! l)) as Hl1.
  { unfold h1. by rewrite lookup_insert_ne. }
  assert (l ≠ fresh (dom h1)) as Hne2.
  { intros ->. rewrite fresh_unused in Hl1. by destruct Hl1. }
  rewrite lookup_insert_ne by done. unfold h1. by rewrite lookup_insert_ne.
Qed.

(** C8.  Computing the sorted rows allocates a new array that holds them
    and leaves the caller's array as it was; after a whole render every
    array that was in the store before, the caller's [data] among them, has
    its original elements in their original order. *)
Theorem render_does_not_mutate_data props st h rows :
  h !! data props = Some rows →
  (∃ r h1,
     sorted_copy (compareRows (sortState st)) (data props) h = Some (r, h1)
     ∧ r ≠ data props
     ∧ h1 !! r = Some (sortedData rows (sortState st))
     ∧ h1 !! data props = Some rows)
  ∧ (∀ v h', Table obj props st h = Some (v, h') →
       h' !! data props = Some rows
       ∧ ∀ l, is_Some (h !! l) → h' !! l = h !! l).
Proof.
  intros Hd. split.
  - exists (fresh (dom h)), (<[fresh (dom h) := sortedData rows (sortState st)]> h).
    assert (fresh (dom h) ≠ data props) as Hne.
    { intros Heq. rewrite <- Heq, fresh_unused in Hd. done. }
    split; [by apply sorted_copy_run|]. split; [done|].
    split; [apply lookup_insert_eq|]. by rewrite lookup_insert_ne.
  - intros v h'. rewrite (Table_run props st h rows Hd).
    destruct (Js.Array_keys _) as [pageNumbers|]; [|done]. intros [= _ <-].
    split.
    + rewrite render_store_frame by by rewrite Hd. done.
    + intros l Hl. by apply render_store_frame.
Qed.

(** C9.  With a positive page size and a current page that starts at or
    after the last row, the visible slice is empty, and the render
    completes without an exception and shows no body row. *)
Theorem page_past_the_end_renders_no_rows props st h rows :
  h !! data props = Some rows →
  Z.of_nat (length rows) < 2 ^ 32 →
  0 < default 10 (pageSize props) →
  Z.of_nat (length rows) ≤ (currentPage st - 1) * default 10 (pageSize props) →
  visibleData rows (default 10 (pageSize props)) st = []
  ∧ ∃ v h', Table obj props st h = Some (v, h') ∧ tbody v = [].
Proof.
  intros Hd Hlen Hp Hpast.
  assert (visibleData rows (default 10 (pageSize props)) st = []) as Hvis.
  { rewrite visibleData_paged by lia. apply slice_past_the_end.
    by rewrite sortedData_length. }
  split; [done|].
  rewrite (Table_run props st h rows Hd), Hvis.
  pose proof (Math_ceil_div_nonneg (Z.of_nat (length rows))
                (default 10 (pageSize props)) ltac:(lia) Hp) as Hn.
  unfold Js.Array_keys, totalPages. rewrite truthy_pos by done.
  rewrite decide_True by lia. eauto.
Qed.
End render.

Lemma render_does_not_mutate_data_witness :
  NumericRows.heap0 !! 1%positive = Some NumericRows.people
  ∧ ∃ r h1,
      sorted_copy
        (compareRows (sortState (initialState NumericRows.props))) 1%positive
        NumericRows.heap0 = Some (r, h1)
      ∧ r ≠ 1%positive
      ∧ h1 !! r = Some (sortedData NumericRows.people
                          (sortState (initialState NumericRows.props)))
      ∧ h1 !! 1%positive = Some NumericRows.people.
Proof.
  split; [reflexivity|].
  apply (render_does_not_mutate_data NumericRows.column_store
           NumericRows.props (initialState NumericRows.props)
           NumericRows.heap0 NumericRows.people).
  reflexivity.
Defined.

Lemma page_past_the_end_renders_no_rows_witness :
  let st := {| currentPage := 4;
               sortState := {| columnKey := "age"; direction := asc |} |} in
  visibleData NumericRows.people 2 st = []
  ∧ ∃ v h', Table NumericRows.column_store NumericRows.props st
              NumericRows.heap0 = Some (v, h')
            ∧ tbody v = [].
Proof.
  intros st.
  apply (page_past_the_end_renders_no_rows NumericRows.column_store
           NumericRows.props st NumericRows.heap0 NumericRows.people).
  - reflexivity.
  - simpl. lia.
  - simpl. lia.
  - simpl. lia.
Defined.

(** ** Checks on the sample rows *)

Example people_by_age_ascending :
  field_values "age"
    (sortedData NumericRows.people {| columnKey := "age"; direction := asc |})
  = [Some 19; Some 25; Some 31; Some 47; Some 52].
Proof. reflexivity. Qed.

Example people_second_page :
  field_values "age"
    (visibleData NumericRows.people 2
       {| currentPage := 2;
          sortState := {| columnKey := "age"; direction := asc |} |})
  = [Some 31; Some 47].
Proof. reflexivity. Qed.

Example people_unknown_key_keeps_order :
  sortedData NumericRows.people {| columnKey := "zip"; direction := desc |}
  = NumericRows.people.
Proof. reflexivity. Qed.

(** Sorting the caller's array itself, without the copy, would reorder it. *)
Example sort_without_copy_mutates :
  ∃ r h', Array_sort (compareRows {| columnKey := "age"; direction := asc |})
            1%positive NumericRows.heap0 = Some (r, h')
          ∧ h' !! 1%positive ≠ Some NumericRows.people.
Proof. eexists _, _. split; [reflexivity|]. vm_compute. discriminate. Qed.

(** The demo scenario: a hundred rows sorted by age ascending, ten per page.
    Page 1 shows the ids 0 to 9; one click on the Age header switches to
    descending order on page 1, which then shows the ids 99 down to 90. *)
Example numbered_first_page :
  let st := {| currentPage := 1;
               sortState := {| columnKey := "age"; direction := asc |} |} in
  totalPages 100 10 = 10
  ∧ field_values "id" (visibleData NumericRows.numbered 10 st)
    = Some <$> seqZ 0 10
  ∧ field_values "id"
      (visibleData NumericRows.numbered 10 (HeaderColumns_onClick "age" st))
    = Some <$> reverse (seqZ 90 10).
Proof. vm_compute. done. Qed.

(** * Further properties of the component *)

(** ** Ties, missing fields and the unsorted first render *)

Section host_sort_ties.
Context {A : Type} (comparefn : A → A → Z).

(** The host sort changes nothing when no element asks to go behind a later
    one. *)
Lemma sort_unchanged (l : list A) :
  (∀ a b, a ∈ l → b ∈ l → comparefn a b ≤ 0) → Js.sort comparefn l = l.
Proof.
  induction l as [|a l IH]; intros Hle; [done|]. simpl.
  rewrite IH by (intros; apply Hle; by right).
  destruct l as [|b l]; [done|]. simpl.
  rewrite decide_False; [done|].
  pose proof (Hle a b ltac:(left) ltac:(right; left)). lia.
Qed.

Lemma filter_insert (P : A → Prop) `{!∀ a, Decision (P a)} (a : A)
    (l : list A) :
  (P a → ∀ b, b ∈ l → P b → comparefn a b ≤ 0) →
  filter P (Js.insert comparefn a l) = filter P (a :: l).
Proof.
  induction l as [|b l IH]; intros Hle; [done|]. simpl.
  destruct (decide (0 < comparefn a b)) as [Hgt|]; [|done].
  rewrite (filter_cons P b), IH by (intros; apply Hle; [|right|]; done).
  rewrite !(filter_cons P a), (filter_cons P b).
  destruct (decide (P a)) as [Pa|], (decide (P b)) as [Pb|]; try done.
  pose proof (Hle Pa b ltac:(left) Pb). lia.
Qed.

(** The host sort is stable on every class of elements that the comparator
    does not separate. *)
Lemma filter_sort (P : A → Prop) `{!∀ a, Decision (P a)} (l : list A) :
  (∀ a b, a ∈ l → b ∈ l → P a → P b → comparefn a b ≤ 0) →
  filter P (Js.sort comparefn l) = filter P l.
Proof.
  induction l as [|a l IH]; intros Hle; [done|]. simpl.
  rewrite filter_insert.
  - rewrite !(filter_cons P a), IH; [done|].
    intros; apply Hle; try done; by right.
  - intros Pa b Hb Pb. rewrite sort_Permutation in Hb.
    apply Hle; try done; [by left|by right].
Qed.
End host_sort_ties.

Section ties.
Context {T value : Type} `{!RowType T value}.
Implicit Types (data : list T) (s : SortState) (a b : T).

Lemma compareRows_equal s a b :
  strict_eq (get a (columnKey s)) (get b (columnKey s)) = true →
  compareRows s a b = 0.
Proof.
  intros Heq. unfold compareRows.
  destruct (negb _); [done|]. simpl. by rewrite Heq.
Qed.

(** X1.  Stability, for field values on which the comparator is consistent
    (any two values of the sort column are [===] or related by [<], and [<]
    orders the classes of [===] values): among rows that hold [===] values
    in the sort column, the sorted rows keep the order of the input.  [P]
    selects any class of rows whose values are [===] to one another. *)
Theorem equal_rows_keep_input_order (P : T → Prop) `{!∀ a, Decision (P a)}
    data s :
  total_preorder (field_values (columnKey s) data) = true →
  (∀ a b, a ∈ data → b ∈ data → P a → P b →
     strict_eq (get a (columnKey s)) (get b (columnKey s)) = true) →
  filter P (sortedData data s) = filter P data.
Proof.
  intros _ Heq. apply filter_sort. intros a b Ha Hb Pa Pb.
  by rewrite compareRows_equal by by apply Heq.
Qed.

(** X2.  When all rows hold [===] values in the sort column, as they do for
    a key that no row has, sorting in either direction leaves the rows in
    their input order. *)
Theorem all_equal_values_keep_order data s :
  (∀ a b, a ∈ data → b ∈ data →
     strict_eq (get a (columnKey s)) (get b (columnKey s)) = true) →
  sortedData data s = data.
Proof.
  intros Heq. apply sort_unchanged. intros a b Ha Hb.
  by rewrite compareRows_equal by by apply Heq.
Qed.

Lemma sortedData_no_key data d :
  sortedData data {| columnKey := ""; direction := d |} = data.
Proof. apply sort_unchanged. intros a b _ _. by rewrite compareRows_no_key. Qed.

(** X3.  Without a default sort column (or with an empty one) the component
    starts on page 1 with the rows unsorted, whatever the default
    direction: the first render shows the first [pageSize] rows of the
    input, in input order. *)
Theorem first_render_without_sort_column (props : TableProps) data size :
  default "" (defaultSortColumn props) = "" → 0 < size →
  currentPage (initialState props) = 1
  ∧ sortedData data (sortState (initialState props)) = data
  ∧ visibleData data size (initialState props) = take (Z.to_nat size) data.
Proof.
  intros Hk Hp. split; [done|].
  assert (sortedData data (sortState (initialState props)) = data) as Hs.
  { unfold initialState. simpl. rewrite Hk. apply sortedData_no_key. }
  split; [done|].
  rewrite visibleData_paged, Hs by lia. simpl.
  rewrite slice_nonneg by lia. simpl. by rewrite Nat.sub_0_r.
Qed.
End ties.

Lemma equal_rows_keep_input_order_witness :
  let s := {| columnKey := "age"; direction := asc |} in
  filter (λ row : gmap string Z, row !! "age" = Some 30)
    (sortedData Samples.cohort s)
  = filter (λ row : gmap string Z, row !! "age" = Some 30) Samples.cohort.
Proof.
  intros s.
  apply (equal_rows_keep_input_order
           (λ row : gmap string Z, row !! "age" = Some 30) Samples.cohort s).
  - reflexivity.
  - intros a b _ _ Ha Hb. simpl. rewrite Ha, Hb. reflexivity.
Defined.

Lemma all_equal_values_keep_order_witness :
  sortedData NumericRows.people {| columnKey := "zip"; direction := desc |}
  = NumericRows.people.
Proof.
  apply (all_equal_values_keep_order NumericRows.people
           {| columnKey := "zip"; direction := desc |}).
  intros a b Ha Hb.
  apply list_elem_of_In in Ha, Hb. simpl in Ha, Hb.
  repeat (destruct Ha as [<-|Ha]; [|]);
    repeat (destruct Hb as [<-|Hb]; [|]); try reflexivity; contradiction.
Defined.

Lemma first_render_without_sort_column_witness :
  currentPage (initialState Samples.unsorted_props) = 1
  ∧ sortedData Samples.cohort (sortState (initialState Samples.unsorted_props))
    = Samples.cohort
  ∧ visibleData Samples.cohort 4 (initialState Samples.unsorted_props)
    = take 4 Samples.cohort.
Proof.
  apply (first_render_without_sort_column Samples.unsorted_props
           Samples.cohort 4); [reflexivity|lia].
Defined.

(** ** The sorted rows are in order *)

Section ordered.
Context {T value : Type} `{!RowType T value}.
Implicit Types (data : list T) (s : SortState) (k : string) (a b : T).
Implicit Types (vs : list value) (u v w : value).

Lemma weak_order_asymmetry vs v w :
  weak_order vs = true → v ∈ vs → w ∈ vs →
  less_than v w = true → less_than w v = false.
Proof.
  unfold weak_order, asymmetric. rewrite !andb_true_iff.
  intros [[Hasym _] _] Hv Hw Hlt.
  pose proof (forallb_elem_of _ _ w (forallb_elem_of _ _ v Hasym Hv) Hw) as H.
  simpl in H. rewrite Hlt in H. by apply negb_true_iff in H.
Qed.

Lemma weak_order_equal vs v w :
  weak_order vs = true → v ∈ vs → w ∈ vs →
  strict_eq v w = true → less_than v w = false ∧ less_than w v = false.
Proof.
  unfold weak_order, equal_unrelated. rewrite !andb_true_iff.
  intros [[_ Heq] _] Hv Hw He.
  pose proof (forallb_elem_of _ _ w (forallb_elem_of _ _ v Heq Hv) Hw) as H.
  simpl in H. rewrite He in H. simpl in H.
  apply andb_true_iff in H as [H1 H2].
  by rewrite negb_true_iff in H1, H2.
Qed.

Lemma weak_order_not_greater vs u v w :
  weak_order vs = true → u ∈ vs → v ∈ vs → w ∈ vs →
  less_than v u = false → less_than w v = false → less_than w u = false.
Proof.
  unfold weak_order, not_greater_transitive. rewrite !andb_true_iff.
  intros [_ Htr] Hu Hv Hw Hvu Hwv.
  pose proof (forallb_elem_of _ _ w (forallb_elem_of _ _ v
                (forallb_elem_of _ _ u Htr Hu) Hv) Hw) as H.
  simpl in H. rewrite Hvu, Hwv in H. by apply negb_true_iff in H.
Qed.

Lemma sortedData_in_order vs data s :
  columnKey s ≠ "" →
  weak_order vs = true →
  (∀ a, a ∈ data → get a (columnKey s) ∈ vs) →
  StronglySorted (in_order s) (sortedData data s).
Proof.
  intros Hk Hord. unfold sortedData.
  induction data as [|a data IH]; intros Hvs; simpl; [constructor|].
  assert (∀ b, b ∈ data → get b (columnKey s) ∈ vs) as Hvs'
      by (intros; apply Hvs; by right).
  assert (get a (columnKey s) ∈ vs) as Hav by (apply Hvs; by left).
  apply insert_StronglySorted; [| |by apply IH].
  - intros b Hb. rewrite sort_Permutation in Hb.
    pose proof (Hvs' b Hb) as Hbv.
    rewrite compareRows_key by done. unfold in_order.
    destruct (strict_eq _ _) eqn:Heq.
    { destruct (weak_order_equal vs _ _ Hord Hav Hbv Heq).
      rewrite decide_False by lia. by destruct (direction s). }
    destruct (less_than (get a _) (get b _)) eqn:Hlt.
    + pose proof (weak_order_asymmetry vs _ _ Hord Hav Hbv Hlt).
      destruct (direction s);
        by rewrite ?decide_False, ?decide_True by lia.
    + destruct (direction s);
        by rewrite ?decide_False, ?decide_True by lia.
  - intros b c Hb Hc. rewrite sort_Permutation in Hb, Hc.
    unfold in_order. destruct (direction s); intros Hab Hbc.
    + by apply (weak_order_not_greater vs _ (get b (columnKey s)) _ Hord);
        auto.
    + by apply (weak_order_not_greater vs _ (get b (columnKey s)) _ Hord);
        auto.
Qed.

(** X4.  For a non-empty sort key and field values on which [<] orders the
    classes of [===] values (ties allowed): after an ascending sort no row
    holds a smaller value than a row before it, and after a descending sort
    no row holds a larger value than a row before it. *)
Theorem sorted_rows_are_ordered data k :
  k ≠ "" →
  weak_order (field_values k data) = true →
  StronglySorted (λ v w, less_than w v = false)
    (field_values k (sortedData data {| columnKey := k; direction := asc |}))
  ∧ StronglySorted (λ v w, less_than v w = false)
      (field_values k
         (sortedData data {| columnKey := k; direction := desc |})).
Proof.
  intros Hk Hord.
  assert (∀ a, a ∈ data → get a k ∈ field_values k data) as Hvs
      by (intros; by apply elem_of_field_values).
  split; unfold field_values.
  - apply StronglySorted_fmap
      with (R1 := in_order {| columnKey := k; direction := asc |}); [done|].
    by apply (sortedData_in_order (field_values k data)).
  - apply StronglySorted_fmap
      with (R1 := in_order {| columnKey := k; direction := desc |}); [done|].
    by apply (sortedData_in_order (field_values k data)).
Qed.
End ordered.

Lemma sorted_rows_are_ordered_witness :
  StronglySorted (λ v w, less_than w v = false)
    (field_values "age"
       (sortedData Samples.cohort {| columnKey := "age"; direction := asc |}))
  ∧ StronglySorted (λ v w, less_than v w = false)
      (field_values "age"
         (sortedData Samples.cohort
            {| columnKey := "age"; direction := desc |})).
Proof.
  apply (sorted_rows_are_ordered Samples.cohort "age");
    [discriminate|reflexivity].
Defined.

(** ** The comparator and the order it produces *)

Lemma StronglySorted_lookup_lt {A} (R : relation A) (l : list A)
    (i j : nat) (x y : A) :
  StronglySorted R l → (i < j)%nat →
  l !! i = Some x → l !! j = Some y → R x y.
Proof.
  intros Hl. revert i j. induction Hl as [|a l Hl IH Ha]; intros i j Hij Hi Hj.
  { by rewrite lookup_nil in Hi. }
  destruct j as [|j]; [lia|]. simpl in Hj.
  destruct i as [|i]; simpl in Hi.
  - injection Hi as ->. rewrite Forall_forall in Ha.
    by apply Ha, (list_elem_of_lookup_2 l j).
  - apply (IH i j); [lia|done..].
Qed.

Section comparator_order.
Context {T value : Type} `{!RowType T value}.
Implicit Types (data : list T) (s : SortState) (a b : T).

Lemma total_preorder_cases (vs : list value) (v w : value) :
  total_preorder vs = true → v ∈ vs → w ∈ vs →
  strict_eq v w = false → less_than v w = true ∨ less_than w v = true.
Proof.
  unfold total_preorder, trichotomous. rewrite andb_true_iff.
  intros [Htri _] Hv Hw Hne.
  pose proof (forallb_elem_of _ _ w (forallb_elem_of _ _ v Htri Hv) Hw) as H.
  simpl in H. rewrite Hne in H. simpl in H.
  by apply orb_true_iff in H.
Qed.

(** C3.  The sorted rows are the host sort of the rows under the
    comparator, and they are the rows of the input.  With an empty sort
    column key the comparator makes every pair equal and the rows stay in
    input order.  With a non-empty key the comparator reads the named field
    of both rows: values that are [===] compare equal; otherwise the
    ascending direction asks for the row with the smaller value (by [<])
    first, and the descending direction gives the opposite answer.  In the
    sorted rows, for field values that are [===] or related by [<], this is
    the order that results: no row holds a smaller value (ascending;
    larger for descending) than a row before it, and of two rows with
    values that are not [===], the one that comes first holds the smaller
    value (ascending) or the larger value (descending). *)
Theorem comparator_orders_by_field data s a b :
  sortedData data s = Js.sort (compareRows s) data
  ∧ sortedData data s ≡ₚ data
  ∧ (columnKey s = "" → compareRows s a b = 0 ∧ sortedData data s = data)
  ∧ (columnKey s ≠ "" →
     let aValue := get a (columnKey s) in
     let bValue := get b (columnKey s) in
     (strict_eq aValue bValue = true → compareRows s a b = 0)
     ∧ (strict_eq aValue bValue = false → less_than aValue bValue = true →
        compareRows s a b = match direction s with asc => -1 | desc => 1 end)
     ∧ (strict_eq aValue bValue = false → less_than aValue bValue = false →
        compareRows s a b = match direction s with asc => 1 | desc => -1 end)
     ∧ compareRows {| columnKey := columnKey s; direction := desc |} a b
       = - compareRows {| columnKey := columnKey s; direction := asc |} a b)
  ∧ (columnKey s ≠ "" →
     total_preorder (field_values (columnKey s) data) = true →
     StronglySorted (in_order s) (sortedData data s)
     ∧ ∀ (i j : nat) (first second : T),
         (i < j)%nat →
         sortedData data s !! i = Some first →
         sortedData data s !! j = Some second →
         strict_eq (get first (columnKey s)) (get second (columnKey s))
         = false →
         match direction s with
         | asc => less_than (get first (columnKey s))
                    (get second (columnKey s)) = true
         | desc => less_than (get second (columnKey s))
                     (get first (columnKey s)) = true
         end).
Proof.
  split; [done|]. split; [apply sortedData_Permutation|]. split.
  { destruct s as [k d]. simpl. intros ->.
    split; [apply compareRows_no_key|apply sortedData_no_key]. }
  split.
  { intros Hk aValue bValue. subst aValue bValue.
    rewrite !compareRows_key by done. simpl.
    destruct (strict_eq _ _), (less_than _ _); repeat split; done. }
  intros Hk Hord.
  assert (StronglySorted (in_order s) (sortedData data s)) as Hsorted.
  { apply (sortedData_in_order (field_values (columnKey s) data)); [done| |].
    - unfold total_preorder in Hord. by apply andb_true_iff in Hord as [_ ?].
    - intros. by apply elem_of_field_values. }
  split; [done|]. intros i j first second Hij Hi Hj Hne.
  pose proof (StronglySorted_lookup_lt _ _ i j first second Hsorted Hij Hi Hj)
    as Hin.
  assert (∀ row, row ∈ sortedData data s →
            get row (columnKey s) ∈ field_values (columnKey s) data) as Hvs.
  { intros row Hrow. rewrite sortedData_Permutation in Hrow.
    by apply elem_of_field_values. }
  destruct (total_preorder_cases _ _ _ Hord
              (Hvs first (list_elem_of_lookup_2 _ _ _ Hi))
              (Hvs second (list_elem_of_lookup_2 _ _ _ Hj)) Hne) as [Hlt|Hgt];
    unfold in_order in Hin; destruct (direction s); congruence.
Qed.
End comparator_order.

Lemma comparator_orders_by_field_witness :
  let s := {| columnKey := "age"; direction := asc |} in
  compareRows s (NumericRows.person 3 19) (NumericRows.person 1 25) = -1
  ∧ StronglySorted (in_order s) (sortedData NumericRows.people s)
  ∧ sortedData NumericRows.people s !! 0%nat = Some (NumericRows.person 3 19)
  ∧ sortedData NumericRows.people s !! 1%nat = Some (NumericRows.person 1 25)
  ∧ less_than (get (NumericRows.person 3 19) "age")
      (get (NumericRows.person 1 25) "age") = true.
Proof.
  intros s.
  destruct (comparator_orders_by_field NumericRows.people s
              (NumericRows.person 3 19) (NumericRows.person 1 25))
    as (_ & _ & _ & Hcmp & Hout).
  destruct (Hcmp ltac:(discriminate)) as (_ & Hlt & _).
  destruct (Hout ltac:(discriminate) ltac:(reflexivity)) as (Hsorted & Hpair).
  split; [apply Hlt; reflexivity|]. split; [exact Hsorted|].
  split; [reflexivity|]. split; [reflexivity|].
  apply (Hpair 0%nat 1%nat (NumericRows.person 3 19)
           (NumericRows.person 1 25)); [lia|reflexivity..].
Defined.

(** ** The size of a page *)

Lemma slice_length_nonneg {A} (l : list A) (start end_ : Z) :
  0 ≤ start → 0 ≤ end_ →
  Z.of_nat (length (Js.slice l start end_))
  = Z.max 0 (Z.min (end_ - start) (Z.of_nat (length l) - start)).
Proof.
  intros Hs He. rewrite slice_nonneg, length_take, length_drop by done. lia.
Qed.

Lemma slice_sublist {A} (l : list A) (start end_ : Z) :
  Js.slice l start end_ `sublist_of` l.
Proof.
  unfold Js.slice. etrans; [apply sublist_take|apply sublist_drop].
Qed.

Section page_size.
Context {T value : Type} `{!RowType T value}.
Implicit Types (data : list T) (st : WidgetState).

Lemma visibleData_length data size st :
  0 < size → 1 ≤ currentPage st →
  Z.of_nat (length (visibleData data size st))
  = Z.max 0 (Z.min size
               (Z.of_nat (length data) - (currentPage st - 1) * size)).
Proof.
  intros Hp Hc. rewrite visibleData_paged by lia.
  rewrite slice_length_nonneg, sortedData_length by nia. f_equal. lia.
Qed.

Lemma visibleData_elem_of data size st (row : T) :
  row ∈ visibleData data size st → row ∈ data.
Proof.
  intros Hrow. rewrite <- (sortedData_Permutation data (sortState st)).
  eapply elem_of_sublist; [done|]. apply slice_sublist.
Qed.

(** X5.  With a positive page size and a current page of at least 1, the
    page shows [min(pageSize, rowCount - start)] rows (none when that is
    negative): never more than [pageSize], exactly [pageSize] on every page
    before the last, and only rows of the input. *)
Theorem page_holds_at_most_pageSize_rows data size st :
  0 < size → 1 ≤ currentPage st →
  Z.of_nat (length (visibleData data size st))
  = Z.max 0 (Z.min size
               (Z.of_nat (length data) - (currentPage st - 1) * size))
  ∧ Z.of_nat (length (visibleData data size st)) ≤ size
  ∧ (currentPage st < totalPages (Z.of_nat (length data)) size →
     Z.of_nat (length (visibleData data size st)) = size)
  ∧ (∀ row, row ∈ visibleData data size st → row ∈ data).
Proof.
  intros Hp Hc. rewrite visibleData_length by done.
  split; [done|]. split; [lia|]. split; [|apply visibleData_elem_of].
  intros Hlt.
  pose proof (totalPages_paged (Z.of_nat (length data)) size Hp). nia.
Qed.
End page_size.

Lemma page_holds_at_most_pageSize_rows_witness :
  let st := {| currentPage := 2;
               sortState := {| columnKey := "age"; direction := asc |} |} in
  Z.of_nat (length (visibleData Samples.cohort 4 st))
  = Z.max 0 (Z.min 4 (6 - (2 - 1) * 4))
  ∧ Z.of_nat (length (visibleData Samples.cohort 4 st)) ≤ 4
  ∧ (2 < totalPages 6 4 →
     Z.of_nat (length (visibleData Samples.cohort 4 st)) = 4)
  ∧ (∀ row, row ∈ visibleData Samples.cohort 4 st → row ∈ Samples.cohort).
Proof.
  intros st.
  apply (page_holds_at_most_pageSize_rows Samples.cohort 4 st); simpl; lia.
Defined.

(** ** When a render completes *)

Lemma totalPages_in_range (rowCount size : Z) :
  0 ≤ rowCount < 2 ^ 32 → 0 ≤ size →
  0 ≤ totalPages rowCount size < 2 ^ 32.
Proof.
  intros Hr Hp. destruct (decide (size = 0)) as [->|]; [done|].
  pose proof (totalPages_paged rowCount size ltac:(lia)). nia.
Qed.

Lemma totalPages_several (rowCount size : Z) :
  0 ≤ rowCount → 0 ≤ size →
  1 < totalPages rowCount size ↔ 0 < size < rowCount.
Proof.
  intros Hr Hp. destruct (decide (size = 0)) as [->|].
  { unfold totalPages. simpl. lia. }
  pose proof (totalPages_paged rowCount size ltac:(lia)). nia.
Qed.

Lemma totalPages_negative_size (rowCount size : Z) :
  0 ≤ rowCount → size < 0 →
  (- size ≤ rowCount → totalPages rowCount size < 0)
  ∧ (rowCount < - size → totalPages rowCount size = 0).
Proof.
  intros Hr Hp. unfold totalPages, Js.truthy, Js.Math_ceil_div.
  rewrite bool_decide_eq_true_2 by lia.
  pose proof (Z.div_mod (- rowCount) size ltac:(lia)).
  pose proof (Z.mod_neg_bound (- rowCount) size Hp).
  split; intros; nia.
Qed.

Section completion.
Context {T value node : Type} `{!RowType T value}.
Context (obj : loc → TableColumn T value node).
Implicit Types (h : gmap loc (list T)) (rows : list T).

(** X6.  With a page size that is not negative (0 disables paging), a render
    completes.  Its body is [tableBody] of the visible rows, one [tr] per
    visible row.  The pagination bar is part of the result exactly when the
    page size is positive and smaller than the number of rows; it then
    reads "Page currentPage of totalPages" and has the buttons
    [0 .. totalPages - 1]. *)
Theorem render_completes props st h rows :
  h !! data props = Some rows →
  Z.of_nat (length rows) < 2 ^ 32 →
  0 ≤ default 10 (pageSize props) →
  let size := default 10 (pageSize props) in
  let total := totalPages (Z.of_nat (length rows)) size in
  ∃ v h', Table obj props st h = Some (v, h')
    ∧ thead v = tableHeader obj (columns props) st
    ∧ tbody v = tableBody obj (columns props) (visibleData rows size st)
    ∧ length (tbody v) = length (visibleData rows size st)
    ∧ (is_Some (pagination v) ↔ 0 < size < Z.of_nat (length rows))
    ∧ (∀ bar, pagination v = Some bar →
         bar_page bar = currentPage st ∧ bar_total bar = total
         ∧ bar_buttons bar = seqZ 0 total).
Proof.
  intros Hd Hlen Hp size total.
  rewrite (Table_run obj props st h rows Hd). fold size total.
  pose proof (totalPages_in_range (Z.of_nat (length rows)) size
                ltac:(lia) Hp) as Hrange.
  fold total in Hrange. unfold Js.Array_keys. rewrite decide_True by done.
  eexists _, _. split; [reflexivity|]. simpl.
  split; [done|]. split; [done|].
  split; [unfold tableBody; by rewrite length_fmap|].
  rewrite <- (totalPages_several (Z.of_nat (length rows)) size) by lia.
  fold total. destruct (decide (1 < total)).
  - split; [split; [done|by eexists]|]. by intros bar [= <-].
  - split; [split; [by intros [? ?]|done]|]. by intros bar.
Qed.

(** X7.  With a negative page size the render throws when the array holds at
    least [-pageSize] rows ([Array(totalPages)] gets a negative count), and
    completes when it holds fewer. *)
Theorem negative_pageSize_throws props st h rows :
  h !! data props = Some rows →
  default 10 (pageSize props) < 0 →
  Table obj props st h = None
  ↔ - default 10 (pageSize props) ≤ Z.of_nat (length rows).
Proof.
  intros Hd Hp. rewrite (Table_run obj props st h rows Hd).
  destruct (totalPages_negative_size (Z.of_nat (length rows))
              (default 10 (pageSize props)) ltac:(lia) Hp) as [Hneg Hzero].
  destruct (decide (- default 10 (pageSize props) ≤ Z.of_nat (length rows)))
    as [Hle|Hgt].
  - unfold Js.Array_keys. rewrite decide_False by (specialize (Hneg Hle); lia).
    done.
  - rewrite Hzero by lia. simpl. split; [done|lia].
Qed.
End completion.

Lemma render_completes_witness :
  ∃ v h', Table Samples.column_store Samples.unsorted_props
            (initialState Samples.unsorted_props) Samples.heap0 = Some (v, h')
    ∧ thead v = tableHeader Samples.column_store [1; 2; 3; 4]%positive
                  (initialState Samples.unsorted_props)
    ∧ tbody v = tableBody Samples.column_store [1; 2; 3; 4]%positive
                  (visibleData Samples.cohort 4
                     (initialState Samples.unsorted_props))
    ∧ length (tbody v)
      = length (visibleData Samples.cohort 4
                  (initialState Samples.unsorted_props))
    ∧ (is_Some (pagination v) ↔ 0 < 4 < 6)
    ∧ (∀ bar, pagination v = Some bar →
         bar_page bar = 1 ∧ bar_total bar = totalPages 6 4
         ∧ bar_buttons bar = seqZ 0 (totalPages 6 4)).
Proof.
  apply (render_completes Samples.column_store Samples.unsorted_props
           (initialState Samples.unsorted_props) Samples.heap0 Samples.cohort).
  - reflexivity.
  - simpl. lia.
  - simpl. lia.
Defined.

Lemma negative_pageSize_throws_witness :
  Table Samples.column_store Samples.negative_props
    (initialState Samples.negative_props) Samples.heap0 = None.
Proof.
  apply (negative_pageSize_throws Samples.column_store Samples.negative_props
           (initialState Samples.negative_props) Samples.heap0 Samples.cohort).
  - reflexivity.
  - simpl. lia.
  - simpl. lia.
Defined.

(** ** Header cells, body cells and the sort indicator *)

Section cells.
Context {T value node : Type} `{!RowType T value}.
Context (obj : loc → TableColumn T value node).
Implicit Types (cols : list loc) (c : loc) (st : WidgetState).

(** The order in which the columns are rendered. *)
Lemma tableHeader_columns cols st :
  th_column <$> tableHeader obj cols st
  = fixedLeftColumns obj cols ++ nofixedColumns obj cols
    ++ fixedRightColumns obj cols.
Proof.
  unfold tableHeader, HeaderColumns. rewrite !fmap_app, <- !list_fmap_compose.
  by rewrite !list_fmap_id.
Qed.

Lemma tableBody_cells cols (rows : list T) :
  tableBody obj cols rows
  = (λ row, (λ c, Column obj c row)
              <$> (fixedLeftColumns obj cols ++ nofixedColumns obj cols
                   ++ fixedRightColumns obj cols)) <$> rows.
Proof.
  unfold tableBody, BodyColumns. apply list_fmap_ext. intros _ row _.
  by rewrite !fmap_app.
Qed.

Lemma elem_of_tableHeader cols st (th : Th) :
  th ∈ tableHeader obj cols st
  ↔ ∃ c, c ∈ cols ∧ HeaderColumns obj [c] st = [th].
Proof.
  unfold tableHeader. rewrite !elem_of_app. unfold HeaderColumns.
  rewrite !list_elem_of_fmap. split.
  - intros [(c & -> & Hc)|[(c & -> & Hc)|(c & -> & Hc)]]; exists c;
      (split; [|done]); rewrite <- (column_groups_Permutation obj cols);
      rewrite !elem_of_app; tauto.
  - intros (c & Hc & Hth). simpl in Hth. injection Hth as <-.
    rewrite <- (column_groups_Permutation obj cols), !elem_of_app in Hc.
    destruct Hc as [Hc|[Hc|Hc]]; [left|right; left|right; right];
      by exists c.
Qed.

(** X8.  Every column of the schema is rendered exactly once in the header
    and once in every body row, columns with the same key included, and
    the cells line up: the header cells and the cells of each row follow
    the same column order, left-fixed, then unfixed, then right-fixed. *)
Theorem header_and_body_cells_line_up cols st (rows : list T) :
  let order := fixedLeftColumns obj cols ++ nofixedColumns obj cols
               ++ fixedRightColumns obj cols in
  order ≡ₚ cols
  ∧ th_column <$> tableHeader obj cols st = order
  ∧ tableBody obj cols rows
    = (λ row, (λ c, Column obj c row) <$> order) <$> rows
  ∧ length (tableHeader obj cols st) = length cols
  ∧ Forall (λ tr, length tr = length cols) (tableBody obj cols rows).
Proof.
  intros order.
  assert (order ≡ₚ cols) as Hperm by apply column_groups_Permutation.
  split; [done|]. split; [apply tableHeader_columns|].
  split; [apply tableBody_cells|]. split.
  - rewrite <- (length_fmap th_column), tableHeader_columns. fold order.
    by rewrite Hperm.
  - rewrite tableBody_cells. fold order. apply Forall_fmap, Forall_forall.
    intros row _. simpl. by rewrite length_fmap, Hperm.
Qed.

(** X9.  After a click on the header of a column, the next render shows the
    indicator on exactly the sortable columns that have the clicked
    column's key, the clicked column among them when it is sortable; the
    glyph is the down arrow when the direction before the click was
    ascending and the up arrow otherwise. *)
Theorem indicator_after_header_click cols st c (th : Th) :
  let st' := HeaderColumns_onClick (key (obj c)) st in
  let glyph := if decide (direction (sortState st) = asc)
               then ArrowDown else ArrowUp in
  th ∈ tableHeader obj cols st' →
  (th_button th = Some (Some glyph)
   ↔ default false (sortable (obj (th_column th))) = true
     ∧ key (obj (th_column th)) = key (obj c))
  ∧ (th_button th = Some (Some glyph) ∨ th_button th = Some None
     ∨ th_button th = None).
Proof.
  intros st' glyph Hth.
  apply elem_of_tableHeader in Hth as (c' & _ & Hth).
  simpl in Hth. injection Hth as <-. simpl. subst glyph.
  destruct (default false (sortable (obj c'))).
  - destruct (decide (key (obj c) = key (obj c'))) as [Hk|Hk].
    + destruct (direction (sortState st)); simpl;
        (split; [split; [by intros _|done]|auto]).
    + split; [|auto]. split; [done|]. intros [_ Hk']. by destruct Hk.
  - split; [|auto]. split; [done|]. by intros [? _].
Qed.
End cells.

Lemma indicator_after_header_click_witness :
  let st := initialState Samples.unsorted_props in
  let th := {| th_column := 3; th_title := "Years";
               th_button := Some (Some ArrowUp) |} in
  th_button th = Some (Some ArrowUp)
  ↔ default false (sortable (Samples.column_store (th_column th))) = true
    ∧ key (Samples.column_store (th_column th))
      = key (Samples.column_store 2%positive).
Proof.
  intros st th.
  apply (indicator_after_header_click Samples.column_store
           [1; 2; 3; 4]%positive st 2%positive th).
  apply list_elem_of_In. simpl. tauto.
Defined.

(** ** Clicks in sequence *)

(** X10.  The direction is one toggle for the whole table: two header
    clicks, on the same column or on two different ones, bring back the
    direction held before them, with the second column active and page 1
    current.  A page click after a header click keeps the new sort state,
    and a header click after a page click undoes the page change. *)
Theorem clicks_in_sequence (k1 k2 : string) (pageNumber : Z)
    (st : WidgetState) :
  HeaderColumns_onClick k2 (HeaderColumns_onClick k1 st)
  = {| currentPage := 1;
       sortState := {| columnKey := k2;
                       direction := direction (sortState st) |} |}
  ∧ pagination_onClick pageNumber (HeaderColumns_onClick k1 st)
    = {| currentPage := pageNumber + 1;
         sortState := sortState (HeaderColumns_onClick k1 st) |}
  ∧ HeaderColumns_onClick k1 (pagination_onClick pageNumber st)
    = HeaderColumns_onClick k1 st.
Proof.
  destruct st as [p [k d]]. unfold HeaderColumns_onClick, pagination_onClick.
  simpl. by destruct d.
Qed.

(** ** States reached through the widget's own buttons *)

Section reachable.
Context {T value node : Type} `{!RowType T value}.
Context (obj : loc → TableColumn T value node).
Implicit Types (h : gmap loc (list T)) (rows : list T) (st : WidgetState).

Lemma step_keeps_page_in_range props rows h st h' st' :
  step obj props (h, st) (h', st') →
  h !! data props = Some rows →
  h' !! data props = Some rows
  ∧ 1 ≤ currentPage st'
      ≤ Z.max 1 (totalPages (Z.of_nat (length rows))
                   (default 10 (pageSize props))).
Proof.
  intros Hstep Hd. inv Hstep.
  match goal with H : Table _ _ _ _ = _ |- _ => rename H into Hrun end.
  match goal with H : _ ∈ buttons _ |- _ => rename H into He end.
  rewrite (Table_run obj props st h rows Hd) in Hrun.
  unfold Js.Array_keys in Hrun.
  destruct (decide (0 ≤ _ < 2 ^ 32)) as [Hrange|]; [|done].
  injection Hrun as <- <-. split.
  { rewrite render_store_frame by by rewrite Hd. done. }
  unfold buttons in He. simpl in He. apply elem_of_app in He as [He|He].
  - apply list_elem_of_fmap in He as (th & -> & _). simpl. lia.
  - destruct (decide (1 < _)) as [Hmany|]; [|by apply elem_of_nil in He].
    simpl in He. apply list_elem_of_fmap in He as (n & -> & Hn).
    apply elem_of_seqZ in Hn. simpl. lia.
Qed.

(** X11.  Starting from the initial state and clicking only buttons that
    the renders offer, while the caller's array keeps its rows: the array
    is never changed, the current page stays between 1 and [totalPages]
    (it is 1 when there are no pages), and so, for a page size that is not
    negative, the page on display is never empty unless there are no
    rows. *)
Theorem reachable_pages_exist props rows h0 h st :
  h0 !! data props = Some rows →
  rtc (step obj props) (h0, initialState props) (h, st) →
  h !! data props = Some rows
  ∧ 1 ≤ currentPage st
      ≤ Z.max 1 (totalPages (Z.of_nat (length rows))
                   (default 10 (pageSize props)))
  ∧ (0 ≤ default 10 (pageSize props) → rows ≠ [] →
     visibleData rows (default 10 (pageSize props)) st ≠ []).
Proof.
  intros Hd Hreach.
  set (size := default 10 (pageSize props)).
  assert (h !! data props = Some rows
          ∧ 1 ≤ currentPage st
              ≤ Z.max 1 (totalPages (Z.of_nat (length rows)) size))
    as [Hd' Hpage].
  { change h with (fst (h, st)). change st with (snd (h, st)) at 2 3.
    revert Hreach. generalize (h, st). clear h st.
    apply (rtc_ind_r
             (λ p, p.1 !! data props = Some rows
                   ∧ 1 ≤ currentPage p.2
                       ≤ Z.max 1 (totalPages (Z.of_nat (length rows)) size))).
    - simpl. split; [done|lia].
    - intros [h1 st1] [h2 st2] _ Hstep [Hd1 _]. simpl in *.
      by apply (step_keeps_page_in_range props rows h1 st1). }
  split; [done|]. split; [done|]. intros Hsize Hrows Hempty.
  apply (f_equal length) in Hempty. simpl in Hempty.
  destruct (decide (size = 0)) as [Hz|Hnz].
  - rewrite Hz, visibleData_unpaged, sortedData_length in Hempty.
    by destruct rows.
  - pose proof (visibleData_length rows size st ltac:(lia) ltac:(lia)) as Hl.
    pose proof (totalPages_paged (Z.of_nat (length rows)) size ltac:(lia)).
    assert (0 < Z.of_nat (length rows)) by (destruct rows; simpl; [done|lia]).
    nia.
Qed.
End reachable.

Lemma reachable_pages_exist_witness :
  ∃ h st,
    rtc (step Samples.column_store Samples.unsorted_props)
      (Samples.heap0, initialState Samples.unsorted_props) (h, st)
    ∧ currentPage st = 2
    ∧ h !! 1%positive = Some Samples.cohort
    ∧ 1 ≤ currentPage st ≤ Z.max 1 (totalPages 6 4)
    ∧ ((0:Z) ≤ 4 → Samples.cohort ≠ [] →
       visibleData Samples.cohort 4 st ≠ []).
Proof.
  assert (∃ h st,
            rtc (step Samples.column_store Samples.unsorted_props)
              (Samples.heap0, initialState Samples.unsorted_props) (h, st)
            ∧ currentPage st = 2) as (h & st & Hreach & Hpage).
  { eexists _, _. split.
    - apply rtc_once.
      eapply (step_click Samples.column_store Samples.unsorted_props
                _ _ _ _ (PageClick 1)); [vm_compute; reflexivity|].
      apply list_elem_of_In. simpl. tauto.
    - reflexivity. }
  exists h, st. split; [exact Hreach|]. split; [exact Hpage|].
  apply (reachable_pages_exist Samples.column_store Samples.unsorted_props
           Samples.cohort Samples.heap0 h st); [reflexivity|exact Hreach].
Defined.

(** ** Sticky offsets *)

Section sticky.
Context {T value node : Type}.
Context (obj : loc → TableColumn T value node).
Implicit Types (cols : list loc) (c : loc).

Lemma widthTimesIndex_product (w index : Z) :
  widthTimesIndex (Some w) index = Some (w * index).
Proof.
  unfold widthTimesIndex, Js.truthy. case_bool_decide; [done|].
  f_equal. assert (w = 0) by (destruct (decide (w = 0)); done). lia.
Qed.

Lemma widthBefore_uniform cols (w : Z) (i : nat) :
  (∀ c, c ∈ cols → width (obj c) = Some w) →
  (i ≤ length cols)%nat →
  widthBefore obj cols i = w * Z.of_nat i.
Proof.
  unfold widthBefore. revert i.
  induction cols as [|c cols IH]; intros i Hw Hi.
  { simpl in Hi. assert (i = 0%nat) as -> by lia. simpl. lia. }
  destruct i as [|i]; simpl; [lia|].
  rewrite IH by (try (intros; apply Hw; by right); simpl in Hi; lia).
  rewrite (Hw c) by by left. simpl. lia.
Qed.

(** X12.  In a group whose columns all declare the same width, the sticky
    offset of every cell is the total width of the columns before it in
    the group, so that the pinned cells sit side by side: the offset is
    [left] for the left-fixed group and [right] for the right-fixed group,
    and an unfixed cell gets neither. *)
Theorem uniform_widths_give_cumulative_offsets cols (w : Z) (i : nat) c :
  (∀ c', c' ∈ cols → width (obj c') = Some w) →
  cols !! i = Some c →
  cellOffsets obj fix_left cols !! i
  = Some (Some (widthBefore obj cols i), None)
  ∧ cellOffsets obj fix_right cols !! i
    = Some (None, Some (widthBefore obj cols i))
  ∧ cellOffsets obj fix_none cols !! i = Some (None, None).
Proof.
  intros Hw Hi. unfold cellOffsets, style_left, style_right.
  rewrite !list_lookup_imap, Hi.
  assert (width (obj c) = Some w) as Hc
      by (apply Hw; by apply list_elem_of_lookup_2 in Hi).
  cbn -[widthTimesIndex widthBefore]. rewrite Hc.
  rewrite !widthTimesIndex_product, widthBefore_uniform with (w := w);
    [done|done|].
  apply lookup_lt_Some in Hi. lia.
Qed.
End sticky.

Lemma uniform_widths_give_cumulative_offsets_witness :
  let group := fixedLeftColumns Samples.column_store [1; 2; 3; 4]%positive in
  cellOffsets Samples.column_store fix_left group !! 1%nat
  = Some (Some (widthBefore Samples.column_store group 1), None)
  ∧ cellOffsets Samples.column_store fix_right group !! 1%nat
    = Some (None, Some (widthBefore Samples.column_store group 1))
  ∧ cellOffsets Samples.column_store fix_none group !! 1%nat
    = Some (None, None).
Proof.
  intros group.
  apply (uniform_widths_give_cumulative_offsets Samples.column_store
           group 100 1 2%positive).
  - intros c' Hc'. apply list_elem_of_In in Hc'. simpl in Hc'.
    destruct Hc' as [<-|[<-|[]]]; reflexivity.
  - reflexivity.
Defined.

(** ** Rows that are in order already, and rendering again *)

Lemma sort_in_order_unchanged {A} (comparefn : A → A → Z) (l : list A) :
  StronglySorted (λ a b, comparefn a b ≤ 0) l → Js.sort comparefn l = l.
Proof.
  induction 1 as [|a l Hl IH Ha]; [done|]. simpl. rewrite IH.
  destruct l as [|b l]; [done|]. simpl.
  apply Forall_cons in Ha as [Hab _]. by rewrite decide_False by lia.
Qed.

Section in_order_already.
Context {T value : Type} `{!RowType T value}.
Implicit Types (data : list T) (s : SortState) (a b : T).

Lemma in_order_compareRows data s a b :
  trichotomous (field_values (columnKey s) data) = true →
  a ∈ data → b ∈ data → in_order s a b → compareRows s a b ≤ 0.
Proof.
  intros Htri Ha Hb Hab.
  destruct (decide (columnKey s = "")) as [Hk|Hk].
  { destruct s as [k d]. simpl in Hk. subst k.
    by rewrite compareRows_no_key. }
  rewrite compareRows_key by done.
  apply (elem_of_field_values (columnKey s)) in Ha, Hb.
  pose proof (forallb_elem_of _ _ _ (forallb_elem_of _ _ _ Htri Ha) Hb) as H.
  simpl in H. unfold in_order in Hab.
  destruct (strict_eq _ _); [done|].
  destruct (less_than (get a _) (get b _)) eqn:Hlt,
    (less_than (get b _) (get a _)) eqn:Hgt, (direction s);
    simpl in H; try done; congruence.
Qed.

Lemma in_order_StronglySorted data s (l : list T) :
  trichotomous (field_values (columnKey s) data) = true →
  (∀ a, a ∈ l → a ∈ data) →
  StronglySorted (in_order s) l →
  StronglySorted (λ a b, compareRows s a b ≤ 0) l.
Proof.
  intros Htri Hin Hsorted.
  induction Hsorted as [|a l Hl IH Ha]; [constructor|].
  constructor.
  - apply IH. intros; apply Hin; by right.
  - apply Forall_forall. intros b Hb. rewrite Forall_forall in Ha.
    apply (in_order_compareRows data);
      [done|apply Hin; by left|apply Hin; by right|by apply Ha].
Qed.

(** X13.  Rows that are in order already are left as they are: when any two
    field values are [===] or related by [<], and no row of the input
    holds a smaller value (ascending; larger for descending) than a row
    before it, the sorted rows are the input. *)
Theorem rows_in_order_are_unchanged data s :
  trichotomous (field_values (columnKey s) data) = true →
  StronglySorted (in_order s) data →
  sortedData data s = data.
Proof.
  intros Htri Hsorted. apply sort_in_order_unchanged.
  by apply (in_order_StronglySorted data).
Qed.
End in_order_already.

Lemma rows_in_order_are_unchanged_witness :
  sortedData Samples.ranked {| columnKey := "age"; direction := asc |}
  = Samples.ranked.
Proof.
  apply (rows_in_order_are_unchanged Samples.ranked
           {| columnKey := "age"; direction := asc |}).
  - reflexivity.
  - repeat constructor.
Defined.

Section rerender.
Context {T value node : Type} `{!RowType T value}.
Context (obj : loc → TableColumn T value node).

(** X14.  Rendering again in the same state, in the store that the first
    render left behind, completes and produces the same tree: what is shown
    depends on the rows of the caller's array and on the state only, not
    on the arrays that earlier renders allocated. *)
Theorem rerender_shows_the_same_tree (props : TableProps)
    (st : WidgetState) (h h1 : gmap loc (list T)) (rows : list T)
    (v : View value node) :
  h !! data props = Some rows →
  Table obj props st h = Some (v, h1) →
  ∃ h2, Table obj props st h1 = Some (v, h2).
Proof.
  intros Hd Hrun. rewrite (Table_run obj props st h rows Hd) in Hrun.
  destruct (Js.Array_keys _) as [pageNumbers|] eqn:Hkeys; [|done].
  injection Hrun as <- <-.
  rewrite (Table_run obj props st _ rows), Hkeys; [by eexists|].
  rewrite render_store_frame by by rewrite Hd. done.
Qed.
End rerender.

Lemma rerender_shows_the_same_tree_witness :
  ∃ v h1 h2,
    Table Samples.column_store Samples.unsorted_props
      (initialState Samples.unsorted_props) Samples.heap0 = Some (v, h1)
    ∧ Table Samples.column_store Samples.unsorted_props
        (initialState Samples.unsorted_props) h1 = Some (v, h2).
Proof.
  assert (∃ v h1,
            Table Samples.column_store Samples.unsorted_props
              (initialState Samples.unsorted_props) Samples.heap0
            = Some (v, h1)) as (v & h1 & Hrun)
      by (eexists _, _; vm_compute; reflexivity).
  destruct (rerender_shows_the_same_tree Samples.column_store
              Samples.unsorted_props (initialState Samples.unsorted_props)
              Samples.heap0 h1 Samples.cohort v ltac:(reflexivity) Hrun)
    as [h2 Hagain].
  exists v, h1, h2. split; [exact Hrun|exact Hagain].
Defined.
